(** * osbench: the object store write benchmark (src/test/objectstore_bench.cc)

    A shallow embedding of the benchmark's pure core: the [byte_units]
    helper (parsing and display of sizes), the per-cycle write generator of
    [osbench_worker], the partitioning and the throughput arithmetic of
    [main], and the completion handshake between [C_NotifyCond::finish] and
    the worker's wait.

    Conventions.  [size_t], [uint64_t] and [unsigned long long] are 64-bit
    unsigned integers, modelled as [Z] with the reduction modulo [2^64]
    written out where the C++ arithmetic wraps.  An operation whose behaviour
    the C++ standard leaves undefined (division by zero, a shift by the full
    width of the type, an array read past its end) yields [None]. *)

From Stdlib Require Import ZArith List Bool Lia String Ascii.
From Stdlib Require Import DecimalString.
Import ListNotations.
Local Open Scope Z_scope.

(* ================================================================= *)
(** ** Machine integers *)

(** [std::numeric_limits<unsigned long long>::digits] *)
Definition digits : Z := 64.

Definition ULLONG_MAX : Z := 2 ^ digits - 1.

(** Conversion of a mathematical integer to a 64-bit unsigned value; also
    the conversion of a (possibly negative) [int] or [long] operand. *)
Definition u64 (x : Z) : Z := x mod 2 ^ digits.

Definition is_u64 (x : Z) : Prop := 0 <= x < 2 ^ digits.

(** Unsigned division; dividing by zero is undefined. *)
Definition udiv (a b : Z) : option Z :=
  if b =? 0 then None else Some (a / b).

(** Unsigned remainder; a zero divisor is undefined. *)
Definition urem (a b : Z) : option Z :=
  if b =? 0 then None else Some (a mod b).

(** [x << n] on a 64-bit unsigned operand; undefined unless [0 <= n < 64]. *)
Definition shl64 (x n : Z) : option Z :=
  if (0 <=? n) && (n <? digits) then Some (u64 (Z.shiftl x n)) else None.

(** [~x] on a 64-bit unsigned operand. *)
Definition not64 (x : Z) : Z := Z.lxor x ULLONG_MAX.

(* ================================================================= *)
(** ** Configuration *)

(** [struct byte_units { size_t v; ... }]; [operator size_t] is the
    projection [v]. *)
Record byte_units : Set := mk_byte_units { v : Z }.

(** [struct Config] *)
Record Config : Set := mk_Config {
  size : byte_units;
  block_size : byte_units;
  repeats : Z;          (* int *)
  threads : Z;          (* int *)
  multi_object : bool
}.

(** [int] is a 32-bit signed integer. *)
Definition is_int (x : Z) : Prop := - 2 ^ 31 <= x < 2 ^ 31.

(** The fields hold values of their C++ types. *)
Definition typed (cfg : Config) : Prop :=
  is_u64 (v (size cfg)) /\ is_u64 (v (block_size cfg)) /\
  is_int (repeats cfg) /\ is_int (threads cfg).

(** The defaults set by [Config::Config()]. *)
Definition default_Config : Config :=
  {| size := mk_byte_units 1048576; block_size := mk_byte_units 4096;
     repeats := 1; threads := 1; multi_object := false |}.

(* ================================================================= *)
(** ** The worker's write cycle *)

(** One [t->write(cid, oid, offset, count, data)] pushed on [tls].  The
    collection, the object and the data buffer are the same for every write
    of a worker and are left out. *)
Record write : Set := mk_write { w_offset : Z; w_count : Z }.

(** The two assertions at the head of [osbench_worker], in their order.
    When the first one fails the run is aborted and the second is not
    evaluated.  The second one evaluates
    [starting_offset % cfg.block_size], which is undefined for a zero block
    size. *)
Definition worker_asserts (cfg : Config) (starting_offset : Z) : option bool :=
  if starting_offset <? v (size cfg) then
    match urem starting_offset (v (block_size cfg)) with
    | None => None
    | Some r => Some (r =? 0)
    end
  else Some false.

(** The loop [while (len) { ... }] of one repeat cycle.  [fuel] bounds the
    number of iterations; running out of it yields [None]. *)
Fixpoint write_loop (fuel : nat) (cfg : Config) (offset len : Z)
         (tls : list write) : option (list write) :=
  if len =? 0 then Some tls
  else
    match fuel with
    | O => None
    | S fuel' =>
        let count :=
          if len <? v (block_size cfg) then len else v (block_size cfg) in
        let tls := tls ++ [mk_write offset count] in
        let offset := u64 (offset + count) in
        let offset :=
          if offset >? v (size cfg) then u64 (offset - v (size cfg))
          else offset in
        let len := u64 (len - count) in
        write_loop fuel' cfg offset len tls
    end.

(** The body of the [for] loop up to the submission: the transaction list
    built for one repeat cycle. *)
Definition write_cycle (fuel : nat) (cfg : Config) (starting_offset : Z)
  : option (list write) :=
  write_loop fuel cfg starting_offset (v (size cfg)) [].

(** All the cycles of a worker: [cfg.repeats] times the same cycle, each
    restarting from [starting_offset].  [None] when an assertion is
    undefined or the loop does not end within [fuel]; [Some None] when an
    assertion fails. *)
Fixpoint repeat_cycles (n : nat) (fuel : nat) (cfg : Config)
         (starting_offset : Z) : option (list (list write)) :=
  match n with
  | O => Some []
  | S n' =>
      match write_cycle fuel cfg starting_offset with
      | None => None
      | Some tls =>
          match repeat_cycles n' fuel cfg starting_offset with
          | None => None
          | Some rest => Some (tls :: rest)
          end
      end
  end.

Definition osbench_worker (fuel : nat) (cfg : Config) (starting_offset : Z)
  : option (option (list (list write))) :=
  match worker_asserts cfg starting_offset with
  | None => None
  | Some false => Some None
  | Some true =>
      match repeat_cycles (Z.to_nat (repeats cfg)) fuel cfg starting_offset with
      | None => None
      | Some cycles => Some (Some cycles)
      end
  end.

Definition counts (tls : list write) : list Z := map w_count tls.
Definition offsets (tls : list write) : list Z := map w_offset tls.
Definition total (l : list Z) : Z := fold_right Z.add 0 l.

Definition cfg_of (sz blk : Z) : Config :=
  {| size := mk_byte_units sz; block_size := mk_byte_units blk;
     repeats := 1; threads := 1; multi_object := false |}.

(** The length of the last write of a cycle over [len] bytes. *)
Definition last_count (blk len : Z) : Z :=
  if len mod blk =? 0 then blk else len mod blk.

(** What the specification asks of the writes of one cycle over [len]
    bytes in blocks of [blk]. *)
Definition cycle_counts_ok (blk len : Z) (tls : list write) : Prop :=
  (forall pre w post, tls = pre ++ w :: post ->
     w_count w = Z.min blk (len - total (counts pre))) /\
  total (counts tls) = len /\
  (exists pre w, tls = pre ++ [w] /\ w_count w = last_count blk len).

(* ================================================================= *)
(** ** [byte_units::parse] *)

(** *** The C library's [strtoull], base 10

    After ISO C 7.22.1.4: leading white space is skipped, an optional sign is
    taken, then the longest run of decimal digits.  With no digit there is no
    conversion: zero is returned and [endptr] is the start of the input.  A
    value beyond [ULLONG_MAX] gives [ULLONG_MAX] with [errno = ERANGE]; a
    minus sign negates the value in the unsigned type. *)

Inductive errno_t : Set := ENONE | ERANGE.

(** [errno == ERANGE] and [errno] read as a condition. *)
Definition is_ERANGE (e : errno_t) : bool :=
  match e with ERANGE => true | ENONE => false end.

Definition nonzero (e : errno_t) : bool :=
  match e with ENONE => false | ERANGE => true end.

Definition code (c : ascii) : Z := Z.of_N (N_of_ascii c).

Definition isspace (c : ascii) : bool :=
  (code c =? 32) || ((9 <=? code c) && (code c <=? 13)).

Definition isdigit (c : ascii) : bool :=
  (48 <=? code c) && (code c <=? 57).

Fixpoint skip_space (s : string) : string :=
  match s with
  | String c s' => if isspace c then skip_space s' else s
  | EmptyString => s
  end.

Fixpoint scan_digits (acc : Z) (s : string) : Z * string :=
  match s with
  | String c s' =>
      if isdigit c then scan_digits (10 * acc + (code c - 48)) s'
      else (acc, s)
  | EmptyString => (acc, s)
  end.

(** [endptr] is the part of the input that starts where the pointer
    points. *)
Record strtoull_result : Set := mk_strtoull {
  ret : Z;
  errno : errno_t;
  endptr : string
}.

Definition strtoull (nptr : string) : strtoull_result :=
  let s := skip_space nptr in
  let '(neg, body) :=
    match s with
    | String "-" s' => (true, s')
    | String "+" s' => (false, s')
    | _ => (false, s)
    end in
  match body with
  | String c _ =>
      if isdigit c then
        let '(n, rest) := scan_digits 0 body in
        if n >? ULLONG_MAX then mk_strtoull ULLONG_MAX ERANGE rest
        else mk_strtoull (if neg then u64 (- n) else n) ENONE rest
      else mk_strtoull 0 ENONE nptr
  | EmptyString => mk_strtoull 0 ENONE nptr
  end.

(** *** Pointers into the C string *)

(** [val.c_str()] read as a C string: the characters before the first
    NUL. *)
Fixpoint c_str (val : string) : string :=
  match val with
  | String c s' => if (code c =? 0) then EmptyString else String c (c_str s')
  | EmptyString => EmptyString
  end.

(** [*p]: the character under the pointer, the terminating NUL at the end. *)
Definition deref (p : string) : ascii :=
  match p with
  | String c _ => c
  | EmptyString => zero
  end.

(** [++p] *)
Definition incr (p : string) : string :=
  match p with
  | String _ s' => s'
  | EmptyString => EmptyString
  end.

(** [p == q] for two pointers into the same C string: they point at the
    same place when as much of the string remains after each. *)
Definition ptr_eq (p q : string) : bool :=
  Nat.eqb (String.length p) (String.length q).

(** *** The [switch] on the unit character

    Each label adds its ten bits and falls through to the next; the last one
    checks that the string ends after the unit.  [None] stands for
    [return false]. *)

Definition label_k (endptr : string) (lshift : Z) : option Z :=
  let lshift := lshift + 10 in
  if code (deref (incr endptr)) =? 0 then Some lshift else None.

Definition label_m (endptr : string) (lshift : Z) : option Z :=
  label_k endptr (lshift + 10).

Definition label_g (endptr : string) (lshift : Z) : option Z :=
  label_m endptr (lshift + 10).

Definition label_t (endptr : string) (lshift : Z) : option Z :=
  label_g endptr (lshift + 10).

Definition is_char (c : ascii) (lower upper : ascii) : bool :=
  Ascii.eqb c lower || Ascii.eqb c upper.

Definition interpret_units (endptr : string) : option Z :=
  let lshift := 0 in
  let c := deref endptr in
  if is_char c "t" "T" then label_t endptr lshift
  else if is_char c "g" "G" then label_g endptr lshift
  else if is_char c "m" "M" then label_m endptr lshift
  else if is_char c "k" "K" then label_k endptr lshift
  else if code c =? 0 then Some lshift
  else None.

(** *** [bool byte_units::parse(const std::string &val)]

    The result pairs the returned flag with the object after the call.
    [None] is undefined behaviour: with no unit the overflow test evaluates
    [1ull << 64]. *)
Definition parse (self : byte_units) (val : string)
  : option (bool * byte_units) :=
  let start := c_str val in
  let r := strtoull start in
  if is_ERANGE (errno r) && (ret r =? ULLONG_MAX) then Some (false, self)
  else if nonzero (errno r) && (ret r =? 0) then Some (false, self)
  else if ptr_eq (endptr r) start then Some (false, self)
  else
    match interpret_units (endptr r) with
    | None => Some (false, self)
    | Some lshift =>
        match shl64 1 (digits - lshift) with
        | None => None
        | Some bit =>
            if negb (Z.land (ret r) (not64 (u64 (bit - 1))) =? 0)
            then Some (false, self)
            else
              match shl64 (ret r) lshift with
              | None => None
              | Some shifted => Some (true, mk_byte_units shifted)
              end
        end
    end.

(** *** The input the specification speaks of

    The number a string of decimal digits denotes, in positional notation,
    and the shift the specification gives for each unit letter. *)

Fixpoint all_digits (s : string) : bool :=
  match s with
  | String c s' => isdigit c && all_digits s'
  | EmptyString => true
  end.

Fixpoint decimal (s : string) : Z :=
  match s with
  | String c s' => (code c - 48) * 10 ^ Z.of_nat (String.length s') + decimal s'
  | EmptyString => 0
  end.

(** K, M, G and T in either case: 10, 20, 30 and 40 bits. *)
Definition unit_shift (c : ascii) : option Z :=
  if is_char c "k" "K" then Some 10
  else if is_char c "m" "M" then Some 20
  else if is_char c "g" "G" then Some 30
  else if is_char c "t" "T" then Some 40
  else None.

(** The same, with no shift where the string ends after the number. *)
Definition suffix_shift (c : ascii) : option Z :=
  if code c =? 0 then Some 0 else unit_shift c.

(** The letters and their shifts, as a table. *)
Definition unit_table : list (ascii * Z) :=
  [("k", 10); ("K", 10); ("m", 20); ("M", 20);
   ("g", 30); ("G", 30); ("t", 40); ("T", 40)]%char.

(** Bit [i] of [n] is among the top [shift] bits of a 64-bit value and is
    set. *)
Definition top_bit_set (n shift : Z) : Prop :=
  exists i, digits - shift <= i < digits /\ Z.testbit n i = true.

(* ================================================================= *)
(** ** [operator<<(std::ostream&, const byte_units&)] *)

Definition units : list string := ["B"; "KB"; "MB"; "GB"; "TB"]%string.

(** [sizeof(units)/sizeof( *units)] *)
Definition max_units : Z := Z.of_nat (List.length units).

(** The [while] loop; the result is the final [(v, unit)].  [fuel] bounds
    the number of iterations. *)
Fixpoint scale_loop (fuel : nat) (v unit : Z) : option (Z * Z) :=
  if (v >=? 1024) && (unit <? max_units) then
    if (v <? 1048576) && negb (v mod 1024 =? 0) then Some (v, unit)
    else
      match fuel with
      | O => None
      | S fuel' => scale_loop fuel' (Z.shiftr v 10) (unit + 1)
      end
  else Some (v, unit).

(** [out << v]: an unsigned integer in decimal. *)
Definition put_unsigned (n : Z) : string :=
  NilZero.string_of_uint (N.to_uint (Z.to_N n)).

(** [units[unit]]; a read outside the table is undefined. *)
Definition units_at (unit : Z) : option string :=
  if unit <? 0 then None else nth_error units (Z.to_nat unit).

(** [out << v << ' ' << units[unit]] *)
Definition put_amount (v unit : Z) : option string :=
  match units_at unit with
  | None => None
  | Some name => Some (put_unsigned v ++ " " ++ name)%string
  end.

(** The text written for [amount].  The outer [None] is a loop that did
    not end within [fuel], the inner one the undefined table read. *)
Definition operator_out (fuel : nat) (amount : byte_units)
  : option (option string) :=
  match scale_loop fuel (v amount) 0 with
  | None => None
  | Some (v', unit) => Some (put_amount v' unit)
  end.

(** *** The display rule in the words of the specification

    Divide by 1024 while the value is at least 1024 and is a multiple of
    1024 or at least one mebibyte; count the divisions; write the value
    that is left and the unit that the count selects. *)

Definition keeps_dividing (x : Z) : Prop :=
  1024 <= x /\ (x mod 1024 = 0 \/ 1048576 <= x).

Inductive spec_scaling : Z -> Z -> Z -> Z -> Prop :=
| scaling_stop x n :
    ~ keeps_dividing x -> spec_scaling x n x n
| scaling_divide x n y m :
    keeps_dividing x -> spec_scaling (x / 1024) (n + 1) y m ->
    spec_scaling x n y m.

Definition spec_display (x : Z) (text : string) : Prop :=
  exists y n name,
    spec_scaling x 0 y n /\
    nth_error units (Z.to_nat n) = Some name /\
    text = (put_unsigned y ++ " " ++ name)%string.

(* ================================================================= *)
(** ** [main]: partitioning and statistics *)

(** The argument [i * cfg.size / cfg.threads] passed to worker [i].  The
    [int] operands are converted to [size_t]; the product wraps. *)
Definition starting_offset (cfg : Config) (i : Z) : option Z :=
  udiv (u64 (u64 i * v (size cfg))) (u64 (threads cfg)).

(** The loop [for (int i = 0; i < cfg.threads; i++)] that starts the
    workers: the offsets in the order the threads are created. *)
Definition spawn_offsets (cfg : Config) : list (option Z) :=
  map (fun i => starting_offset cfg (Z.of_nat i))
      (seq 0 (Z.to_nat (threads cfg))).

(** The figures of the final log line. *)
Record statistics : Set := mk_statistics {
  st_total : byte_units;
  st_rate : byte_units;
  st_iops : Z
}.

(** The four lines after the join; [count] is [duration.count()], a signed
    64-bit number of microseconds, converted to unsigned by the division. *)
Definition main_statistics (cfg : Config) (count : Z) : option statistics :=
  let total :=
    u64 (u64 (v (size cfg) * u64 (repeats cfg)) * u64 (threads cfg)) in
  match udiv (u64 (1000000 * total)) (u64 count) with
  | None => None
  | Some rate =>
      match udiv (u64 (1000000 * total)) (v (block_size cfg)) with
      | None => None
      | Some per_block =>
          match udiv per_block (u64 count) with
          | None => None
          | Some iops =>
              Some (mk_statistics (mk_byte_units total)
                                  (mk_byte_units rate) iops)
          end
      end
  end.

(** The reference figures in the words of the specification, in exact
    integer arithmetic. *)
Definition exact_statistics (cfg : Config) (elapsed : Z) : statistics :=
  let total_bytes := v (size cfg) * repeats cfg * threads cfg in
  mk_statistics
    (mk_byte_units total_bytes)
    (mk_byte_units (total_bytes * 1000000 / elapsed))
    (total_bytes / v (block_size cfg) * 1000000 / elapsed).

(** How a run of [main] ends: an error written to [derr] and a non-zero
    status, the summary line and status 0, or undefined behaviour. *)
Inductive main_result : Set :=
| Reported (status : Z) (message : string)
| Summary (s : statistics)
| Undefined.

(** [main] after the argument loop, over the results of the collaborator
    calls: whether [ObjectStore::create] gave a store, the values of
    [mkfs()] and [mount()], and the measured duration.  The duration exists
    only in a run whose worker threads were all started and joined, so the
    last branch stands for such a run: a worker that fails an assertion,
    and a thread count that [reserve] refuses, end the program before the
    statistics and are not part of this function.  The first message is
    followed in the code by the name of the store type, which is left
    out. *)
Definition main_run (created : bool) (mkfs mount : Z) (cfg : Config)
           (count : Z) : main_result :=
  if negb created then Reported 1 "bad objectstore type"
  else if mkfs <? 0 then Reported 1 "mkfs failed"
  else if mount <? 0 then Reported 1 "mount failed"
  else
    match main_statistics cfg count with
    | None => Undefined
    | Some s => Summary s
    end.

(* ================================================================= *)
(** ** The completion handshake

    [C_NotifyCond::finish] runs on a thread of the object store, at any time
    after [queue_transactions] was called; the worker then takes the lock
    and waits for [done].  The two threads are interleaved step by step over
    the shared mutex, flag and condition variable. *)

Module NotifyCond.

Inductive thread : Set := Finisher | Worker.

(** Program points of [finish]. *)
Inductive finish_pc : Set :=
| F_start      (* before [lock_guard lock( *mutex)] *)
| F_locked     (* lock held, before [*done = true] *)
| F_set        (* before [cond->notify_one()] *)
| F_notified   (* before the guard's destructor *)
| F_returned.

(** Program points of the worker from [unique_lock lock(mutex)] to
    [lock.unlock()].  [cond.wait(lock, pred)] is
    [while (!pred()) cond.wait(lock)]: the predicate is evaluated first,
    and the call of [cond.wait(lock)] that follows a false predicate is a
    step of its own. *)
Inductive wait_pc : Set :=
| W_start      (* before [unique_lock lock(mutex)] *)
| W_test       (* lock held, about to evaluate the predicate *)
| W_waiting    (* predicate was false, lock held, about to call
                  [cond.wait(lock)] *)
| W_blocked    (* inside [wait]: lock released, thread blocked on [cond] *)
| W_woken      (* unblocked, taking the lock again *)
| W_passed     (* predicate true, before [lock.unlock()] *)
| W_returned.

Record state : Set := mk_state {
  mutex : option thread;   (* the owner of [mutex] *)
  done : bool;
  fpc : finish_pc;
  wpc : wait_pc
}.

(** The state when [queue_transactions] has been called. *)
Definition init : state := mk_state None false F_start W_start.

Definition final (s : state) : Prop :=
  fpc s = F_returned /\ wpc s = W_returned.

(** [notify_one] unblocks the worker when it is blocked on the condition
    variable and does nothing otherwise. *)
Definition notify_one (w : wait_pc) : wait_pc :=
  match w with
  | W_blocked => W_woken
  | _ => w
  end.

Inductive label : Set :=
| Regular
| Spurious.   (* a wake-up of [wait] that no [notify_one] caused *)

Inductive step : state -> label -> state -> Prop :=
| finish_lock d w :
    step (mk_state None d F_start w) Regular
         (mk_state (Some Finisher) d F_locked w)
| finish_set m d w :
    step (mk_state m d F_locked w) Regular
         (mk_state m true F_set w)
| finish_notify m d w :
    step (mk_state m d F_set w) Regular
         (mk_state m d F_notified (notify_one w))
| finish_unlock m d w :
    step (mk_state m d F_notified w) Regular
         (mk_state None d F_returned w)
| wait_lock d f :
    step (mk_state None d f W_start) Regular
         (mk_state (Some Worker) d f W_test)
| wait_pred_true m f :
    step (mk_state m true f W_test) Regular
         (mk_state m true f W_passed)
| wait_pred_false m f :
    step (mk_state m false f W_test) Regular
         (mk_state m false f W_waiting)
| wait_block m d f :
    (* [cond.wait(lock)] releases the mutex and blocks in one atomic step,
       whatever [done] has become since the predicate was evaluated *)
    step (mk_state m d f W_waiting) Regular
         (mk_state None d f W_blocked)
| wait_spurious m d f :
    step (mk_state m d f W_blocked) Spurious
         (mk_state m d f W_woken)
| wait_relock d f :
    step (mk_state None d f W_woken) Regular
         (mk_state (Some Worker) d f W_test)
| wait_unlock m d f :
    step (mk_state m d f W_passed) Regular
         (mk_state None d f W_returned).

(** Any number of steps, in any interleaving. *)
Inductive steps : state -> state -> Prop :=
| steps_refl s : steps s s
| steps_more s l s' s'' : step s l s' -> steps s' s'' -> steps s s''.

Definition reachable (s : state) : Prop := steps init s.

(** The worker has found the predicate false: it is about to call
    [wait], blocked in it or on its way out of it. *)
Definition suspended (s : state) : Prop :=
  wpc s = W_waiting \/ wpc s = W_blocked \/ wpc s = W_woken.

(** [finish] is between taking and releasing the lock. *)
Definition finish_holds (f : finish_pc) : bool :=
  match f with
  | F_locked | F_set | F_notified => true
  | F_start | F_returned => false
  end.

(** The worker is between taking and releasing the lock. *)
Definition wait_holds (w : wait_pc) : bool :=
  match w with
  | W_test | W_waiting | W_passed => true
  | W_start | W_blocked | W_woken | W_returned => false
  end.

(** [finish] has yet to call [notify_one]. *)
Definition notify_ahead (f : finish_pc) : bool :=
  match f with
  | F_start | F_locked | F_set => true
  | F_notified | F_returned => false
  end.

(** The number of regular steps the two threads can still take. *)
Definition finish_rank (f : finish_pc) : nat :=
  match f with
  | F_start => 4 | F_locked => 3 | F_set => 2 | F_notified => 1
  | F_returned => 0
  end.

Definition wait_rank (d : bool) (w : wait_pc) : nat :=
  match w with
  | W_start => 8
  | W_woken => if d then 3 else 7
  | W_test => if d then 2 else 6
  | W_waiting => 5
  | W_blocked => 4
  | W_passed => 1
  | W_returned => 0
  end.

Definition rank (s : state) : nat :=
  (finish_rank (fpc s) + wait_rank (done s) (wpc s))%nat.

(** What holds in every state of every interleaving: the mutex is owned by
    the thread that is between lock and unlock, and by one thread at most;
    [done] is true from the assignment in [finish] on; the worker has left
    the wait only with [done] true; while the worker is blocked the call of
    [notify_one] is still to come; and between a false predicate and the
    call of [wait] the flag is still false. *)
Definition invariant (s : state) : Prop :=
  mutex s = (if finish_holds (fpc s) then Some Finisher
             else if wait_holds (wpc s) then Some Worker else None) /\
  finish_holds (fpc s) && wait_holds (wpc s) = false /\
  done s = negb (match fpc s with F_start | F_locked => true | _ => false end) /\
  (wpc s = W_passed \/ wpc s = W_returned -> done s = true) /\
  (wpc s = W_blocked -> notify_ahead (fpc s) = true) /\
  (wpc s = W_waiting -> done s = false).

(** Once [done] is set, a worker that is not inside [wait] does not enter
    it. *)
Definition signalled_awake (s : state) : Prop :=
  done s = true /\ ~ suspended s.

(** The state after [finish] has run to its end before the worker takes
    the lock. *)
Definition signalled_first : state := mk_state None true F_returned W_start.

End NotifyCond.

(* ================================================================= *)
(** ** The run of all the workers *)

(** The bytes a worker asks the store to write, over all its cycles. *)
Definition bytes_written (cycles : list (list write)) : Z :=
  total (counts (List.concat cycles)).

(** The threads [main] starts: worker [i] runs [osbench_worker] on the
    offset computed for it. *)
Definition run_workers (fuel : nat) (cfg : Config)
  : list (option (option (list (list write)))) :=
  map (fun off =>
         match off with
         | None => None
         | Some o => osbench_worker fuel cfg o
         end)
      (spawn_offsets cfg).

(** The bytes written by all the workers together, when every one of them
    ran to its end. *)
Fixpoint all_bytes_written
         (workers : list (option (option (list (list write))))) : option Z :=
  match workers with
  | [] => Some 0
  | Some (Some cycles) :: rest =>
      match all_bytes_written rest with
      | Some b => Some (bytes_written cycles + b)
      | None => None
      end
  | _ :: _ => None
  end.

(** The worker is past its wait: it has seen [done] and is about to
    release the mutex, or has released it. *)
Definition wait_over (s : NotifyCond.state) : Prop :=
  NotifyCond.wpc s = NotifyCond.W_passed \/
  NotifyCond.wpc s = NotifyCond.W_returned.

(** A string of white space only. *)
Fixpoint all_space (s : string) : bool :=
  match s with
  | String c s' => isspace c && all_space s'
  | EmptyString => true
  end.

(* ================================================================= *)
(** * Properties *)

(** ** The code on small inputs *)

Example cycle_even :
  write_cycle 2 (cfg_of 8192 4096) 0 =
  Some [mk_write 0 4096; mk_write 4096 4096].
Proof. reflexivity. Qed.

Example cycle_ragged :
  write_cycle 3 (cfg_of 10 4) 4 =
  Some [mk_write 4 4; mk_write 8 4; mk_write 2 2].
Proof. reflexivity. Qed.

Example cycle_zero_block : write_cycle 100 (cfg_of 10 0) 0 = None.
Proof. reflexivity. Qed.

Example parse_4K :
  parse (mk_byte_units 7) "4K" = Some (true, mk_byte_units 4096).
Proof. vm_compute. reflexivity. Qed.

Example parse_1t :
  parse (mk_byte_units 7) "1t" = Some (true, mk_byte_units (2 ^ 40)).
Proof. vm_compute. reflexivity. Qed.

Example parse_trailing :
  parse (mk_byte_units 7) "4KB" = Some (false, mk_byte_units 7).
Proof. vm_compute. reflexivity. Qed.

Example parse_no_digits :
  parse (mk_byte_units 7) "K" = Some (false, mk_byte_units 7).
Proof. vm_compute. reflexivity. Qed.

Example parse_out_of_range :
  parse (mk_byte_units 7) "99999999999999999999K"
  = Some (false, mk_byte_units 7).
Proof. vm_compute. reflexivity. Qed.

Example parse_no_unit : parse (mk_byte_units 7) "4096" = None.
Proof. vm_compute. reflexivity. Qed.

Example display_1M :
  operator_out 5 (mk_byte_units 1048576) = Some (Some "1 MB"%string).
Proof. vm_compute. reflexivity. Qed.

Example display_1025 :
  operator_out 5 (mk_byte_units 1025) = Some (Some "1025 B"%string).
Proof. vm_compute. reflexivity. Qed.

Example display_1M_and_1 :
  operator_out 5 (mk_byte_units 1048577) = Some (Some "1 MB"%string).
Proof. vm_compute. reflexivity. Qed.

Example display_1025T :
  operator_out 5 (mk_byte_units (1025 * 2 ^ 40)) = Some (Some "1025 TB"%string).
Proof. vm_compute. reflexivity. Qed.

Example offsets_64K_4 :
  spawn_offsets
    (mk_Config (mk_byte_units 65536) (mk_byte_units 16384) 2 4 false)
  = [Some 0; Some 16384; Some 32768; Some 49152].
Proof. reflexivity. Qed.

Example statistics_512K :
  option_map st_total
    (main_statistics
       (mk_Config (mk_byte_units 65536) (mk_byte_units 16384) 2 4 false)
       1000000)
  = Some (mk_byte_units 524288).
Proof. reflexivity. Qed.

(** ** Machine integers *)

Lemma u64_small x : is_u64 x -> u64 x = x.
Proof. unfold is_u64, u64. intros H. apply Z.mod_small. exact H. Qed.

Lemma u64_range x : is_u64 (u64 x).
Proof. unfold is_u64, u64. apply Z.mod_pos_bound. reflexivity. Qed.

(** ** The write cycle *)

Lemma write_loop_app fuel cfg : forall offset len tls,
  write_loop fuel cfg offset len tls =
  option_map (app tls) (write_loop fuel cfg offset len []).
Proof.
  induction fuel as [|fuel IH]; intros offset len tls; simpl.
  - destruct (len =? 0); simpl; [rewrite app_nil_r|]; reflexivity.
  - destruct (len =? 0); simpl; [rewrite app_nil_r; reflexivity|].
    rewrite IH. symmetry. rewrite IH.
    destruct (write_loop fuel cfg _ _ []) as [l|]; simpl; [|reflexivity].
    rewrite <- app_assoc. reflexivity.
Qed.

Section CycleCounts.

Variable cfg : Config.
Let blk := v (block_size cfg).
Hypothesis blk_pos : 0 < blk.

Lemma last_count_step len :
  blk < len -> last_count blk (len - blk) = last_count blk len.
Proof.
  intros H. unfold last_count.
  replace (len - blk) with (len + (-1) * blk) by lia.
  rewrite Z.mod_add by lia. reflexivity.
Qed.

Lemma last_count_short len :
  0 < len <= blk -> last_count blk len = len.
Proof.
  intros H. unfold last_count.
  destruct (Z.eq_dec len blk) as [->|Hne].
  - rewrite Z.mod_same by lia. reflexivity.
  - rewrite Z.mod_small by lia.
    destruct (Z.eqb_spec len 0); [lia|reflexivity].
Qed.

Lemma write_loop_counts : forall fuel offset len,
  is_u64 len -> (Z.to_nat len <= fuel)%nat ->
  exists tls,
    write_loop fuel cfg offset len [] = Some tls /\
    (forall pre w post, tls = pre ++ w :: post ->
       w_count w = Z.min blk (len - total (counts pre))) /\
    total (counts tls) = len /\
    (len = 0 -> tls = []) /\
    (0 < len -> exists pre w, tls = pre ++ [w] /\
                              w_count w = last_count blk len).
Proof.
  induction fuel as [|fuel IH]; intros offset len Hlen Hfuel.
  - assert (len = 0) as -> by (unfold is_u64 in Hlen; lia).
    exists []. simpl. repeat split; try lia.
    intros [|? ?] ? ? E; discriminate E.
  - simpl. destruct (Z.eqb_spec len 0) as [->|Hnz].
    + exists []. repeat split; try lia.
      intros [|? ?] ? ? E; discriminate E.
    + fold blk.
      set (count := if len <? blk then len else blk).
      assert (Hcount : count = Z.min blk len).
      { subst count. destruct (Z.ltb_spec len blk); lia. }
      assert (Hc : 0 < count <= len) by (unfold is_u64 in Hlen; lia).
      assert (Hrest : is_u64 (len - count)) by (unfold is_u64 in *; lia).
      rewrite (u64_small (len - count)) by exact Hrest.
      rewrite write_loop_app.
      match goal with
      | |- context [write_loop fuel cfg ?o _ []] =>
          destruct (IH o (len - count) Hrest ltac:(lia))
            as (tls & Hrun & Hmin & Hsum & Hnil & Hlast)
      end.
      rewrite Hrun. simpl.
      exists (mk_write offset count :: tls). split; [reflexivity|].
      split; [|split; [|split]].
      * intros [|w0 pre] w post E; simpl in E; inversion E; subst; simpl.
        -- fold count. lia.
        -- rewrite (Hmin pre w post eq_refl). f_equal. lia.
      * unfold counts in *. simpl. rewrite Hsum. lia.
      * intros ->. lia.
      * intros _. destruct (Z.eq_dec (len - count) 0) as [Hz|Hz].
        -- rewrite (Hnil Hz).
           exists [], (mk_write offset count). split; [reflexivity|].
           simpl. rewrite last_count_short by lia. lia.
        -- destruct (Hlast ltac:(lia)) as (pre & w & -> & Hw).
           exists (mk_write offset count :: pre), w. split; [reflexivity|].
           rewrite Hw. assert (count = blk) as -> by lia.
           apply last_count_step. lia.
Qed.

End CycleCounts.

Lemma repeat_cycles_all n fuel cfg start tls :
  write_cycle fuel cfg start = Some tls ->
  repeat_cycles n fuel cfg start = Some (repeat tls n).
Proof.
  intros H. induction n as [|n IH]; simpl; [reflexivity|].
  rewrite H, IH. reflexivity.
Qed.

(** C2: a worker whose assertions pass runs every repeat cycle to its end,
    and in each cycle every write has length [min(block_size, remaining)],
    the lengths add up to the total size, and the last write has length
    [size mod block_size], or [block_size] when that is zero. *)
Theorem C2_cycle_lengths (cfg : Config) (starting_offset : Z) (fuel : nat) :
  typed cfg -> is_u64 starting_offset ->
  worker_asserts cfg starting_offset = Some true ->
  (Z.to_nat (v (size cfg)) <= fuel)%nat ->
  exists cycles,
    osbench_worker fuel cfg starting_offset = Some (Some cycles) /\
    List.length cycles = Z.to_nat (repeats cfg) /\
    Forall (cycle_counts_ok (v (block_size cfg)) (v (size cfg))) cycles.
Proof.
  intros (Hsize & Hblock & _) Hstart Hassert Hfuel.
  unfold osbench_worker. rewrite Hassert.
  unfold worker_asserts, urem in Hassert.
  destruct (Z.ltb_spec starting_offset (v (size cfg))) as [Hlt|];
    [|discriminate].
  destruct (Z.eqb_spec (v (block_size cfg)) 0) as [|Hblk]; [discriminate|].
  assert (Hpos : 0 < v (block_size cfg)) by (unfold is_u64 in Hblock; lia).
  destruct (write_loop_counts cfg Hpos fuel starting_offset (v (size cfg))
              Hsize Hfuel) as (tls & Hrun & Hmin & Hsum & _ & Hlast).
  rewrite (repeat_cycles_all _ _ _ _ _ Hrun).
  exists (repeat tls (Z.to_nat (repeats cfg))).
  split; [reflexivity|]. split; [apply repeat_length|].
  apply Forall_forall. intros x Hx. apply repeat_spec in Hx. subst x.
  split; [exact Hmin|]. split; [exact Hsum|].
  apply Hlast. unfold is_u64 in Hstart. lia.
Qed.

Lemma C2_cycle_lengths_witness :
  exists cycles,
    osbench_worker 10 (mk_Config (mk_byte_units 10) (mk_byte_units 4) 2 1 false)
                   4 = Some (Some cycles) /\
    List.length cycles = 2%nat /\
    Forall (cycle_counts_ok 4 10) cycles.
Proof.
  apply (C2_cycle_lengths
           (mk_Config (mk_byte_units 10) (mk_byte_units 4) 2 1 false) 4 10).
  - unfold typed, is_u64, is_int, digits; simpl; lia.
  - unfold is_u64, digits; lia.
  - reflexivity.
  - simpl; lia.
Defined.

(** C1: with a total size of 8192 bytes written in blocks of 4096 by the
    worker that starts at offset 4096, the running offset reaches the total
    size after the first write and is not wrapped: the second write of the
    cycle is issued at offset 8192, the total size itself, and offset 0 is
    never written. *)
Theorem C1_offset_reaches_total_size :
  let cfg := cfg_of 8192 4096 in
  worker_asserts cfg 4096 = Some true /\
  osbench_worker 2 cfg 4096 =
    Some (Some [[mk_write 4096 4096; mk_write 8192 4096]]) /\
  ~ Forall (fun o => 0 <= o < v (size cfg))
           (offsets [mk_write 4096 4096; mk_write 8192 4096]).
Proof.
  split; [reflexivity|]. split; [reflexivity|].
  intros H. inversion H as [|? ? _ H']. inversion H' as [|? ? Hb _].
  simpl in Hb. lia.
Qed.

(** ** Parsing *)

Lemma isdigit_code c : isdigit c = true -> 48 <= code c <= 57.
Proof. unfold isdigit. intros H. apply andb_prop in H. lia. Qed.

Lemma c_str_digits : forall ds rest,
  all_digits ds = true -> c_str (ds ++ rest) = (ds ++ c_str rest)%string.
Proof.
  induction ds as [|c ds IH]; intros rest H; simpl in *; [reflexivity|].
  apply andb_prop in H. destruct H as [Hc Hds].
  apply isdigit_code in Hc.
  destruct (Z.eqb_spec (code c) 0); [lia|]. rewrite IH by exact Hds.
  reflexivity.
Qed.

Lemma scan_digits_all : forall ds acc rest,
  all_digits ds = true -> isdigit (deref rest) = false ->
  scan_digits acc (ds ++ rest) =
  (acc * 10 ^ Z.of_nat (String.length ds) + decimal ds, rest).
Proof.
  induction ds as [|c ds IH]; intros acc rest H Hrest.
  - simpl. replace (acc * 1 + 0) with acc by lia.
    destruct rest as [|c rest]; simpl in *; [reflexivity|].
    rewrite Hrest. reflexivity.
  - cbn [all_digits] in H. apply andb_prop in H. destruct H as [Hc Hds].
    cbn [append scan_digits]. rewrite Hc. rewrite IH by assumption.
    f_equal. cbn [decimal String.length]. rewrite Nat2Z.inj_succ, Z.pow_succ_r by lia.
    ring.
Qed.

Lemma decimal_nonneg : forall ds, all_digits ds = true -> 0 <= decimal ds.
Proof.
  induction ds as [|c ds IH]; intros H; simpl in *; [lia|].
  apply andb_prop in H. destruct H as [Hc Hds]. apply isdigit_code in Hc.
  specialize (IH Hds).
  assert (0 < 10 ^ Z.of_nat (String.length ds)) by (apply Z.pow_pos_nonneg; lia).
  nia.
Qed.

Lemma string_length_app : forall a b : string,
  String.length (a ++ b) = (String.length a + String.length b)%nat.
Proof. induction a as [|c a IH]; intros b; simpl; [|rewrite IH]; reflexivity. Qed.

(** [strtoull] on a run of digits followed by something that is not a
    digit: the value of the digits, no error, and [endptr] at the rest. *)
Lemma strtoull_digits ds rest :
  ds <> EmptyString -> all_digits ds = true -> isdigit (deref rest) = false ->
  decimal ds <= ULLONG_MAX ->
  strtoull (ds ++ rest) = mk_strtoull (decimal ds) ENONE rest.
Proof.
  intros Hne Hds Hrest Hmax.
  destruct ds as [|c ds]; [contradiction|].
  pose proof (scan_digits_all (String c ds) 0 rest Hds Hrest) as Hscan.
  cbn [all_digits] in Hds. apply andb_prop in Hds. destruct Hds as [Hc Hds].
  pose proof (isdigit_code c Hc) as Hcode.
  unfold strtoull. cbn [append skip_space].
  assert (Hsp : isspace c = false).
  { unfold isspace.
    destruct (Z.eqb_spec (code c) 32); [lia|].
    destruct (Z.leb_spec (code c) 13); [lia|]. rewrite andb_false_r. reflexivity. }
  rewrite Hsp.
  assert (Hsign : (match String c (ds ++ rest) with
                   | String "-" s' => (true, s')
                   | String "+" s' => (false, s')
                   | _ => (false, String c (ds ++ rest))
                   end) = (false, String c (ds ++ rest))).
  { clear - Hcode.
    destruct c as [[] [] [] [] [] [] [] []]; try reflexivity;
      unfold code in Hcode; simpl in Hcode; lia. }
  rewrite Hsign. rewrite Hc.
  cbn [append] in Hscan. rewrite Hscan. rewrite Z.mul_0_l, Z.add_0_l.
  destruct (Z.gtb_spec (decimal (String c ds)) ULLONG_MAX); [lia|reflexivity].
Qed.

(** *** The overflow test *)

Lemma testbit_above n i : 0 <= n < 2 ^ i -> 0 <= i -> Z.testbit n i = false.
Proof.
  intros Hn Hi. destruct (Z.eq_dec n 0) as [->|Hnz]; [apply Z.bits_0|].
  apply Z.bits_above_log2; [lia|]. apply Z.log2_lt_pow2; lia.
Qed.

(** [ret & ~((1ull << k) - 1)] clears the low [k] bits of [ret]. *)
Lemma land_high_mask n k :
  is_u64 n -> 0 <= k <= digits ->
  Z.land n (not64 (2 ^ k - 1)) = Z.shiftl (Z.shiftr n k) k.
Proof.
  intros Hn Hk. apply Z.bits_inj'. intros i Hi.
  unfold not64, ULLONG_MAX.
  rewrite Z.land_spec, Z.lxor_spec.
  rewrite !Z.sub_1_r, <- !Z.ones_equiv.
  rewrite !Z.testbit_ones_nonneg by (unfold digits in *; lia).
  rewrite Z.shiftl_spec by lia.
  destruct (Z.ltb_spec i k) as [Hik|Hik].
  - rewrite (Z.testbit_neg_r _ (i - k)) by lia.
    destruct (Z.ltb_spec i digits); [|lia].
    simpl. apply andb_false_r.
  - rewrite Z.shiftr_spec by lia. replace (i - k + k) with i by lia.
    destruct (Z.ltb_spec i digits) as [Hid|Hid]; simpl.
    + apply andb_true_r.
    + rewrite andb_false_r. symmetry. apply testbit_above; [|lia].
      unfold is_u64 in Hn. split; [lia|].
      apply Z.lt_le_trans with (2 ^ digits); [lia|].
      apply Z.pow_le_mono_r; lia.
Qed.

Lemma high_mask_zero n k :
  is_u64 n -> 0 <= k <= digits ->
  (Z.land n (not64 (2 ^ k - 1)) = 0 <-> n < 2 ^ k).
Proof.
  intros Hn Hk. rewrite land_high_mask by assumption.
  rewrite Z.shiftl_mul_pow2, Z.shiftr_div_pow2 by lia.
  assert (Hp : 0 < 2 ^ k) by (apply Z.pow_pos_nonneg; lia).
  unfold is_u64 in Hn. split; intros H.
  - assert (n / 2 ^ k = 0) as Hq by nia.
    apply Z.div_small_iff in Hq; lia.
  - rewrite Z.div_small by lia. reflexivity.
Qed.

Lemma top_bit_set_ge n shift :
  0 <= n -> 0 <= shift <= digits -> top_bit_set n shift ->
  2 ^ (digits - shift) <= n.
Proof.
  intros Hn Hs (i & Hi & Hbit).
  destruct (Z.le_gt_cases (2 ^ (digits - shift)) n) as [|Hlt]; [assumption|].
  rewrite testbit_above in Hbit; [discriminate| |lia].
  split; [lia|]. apply Z.lt_le_trans with (2 ^ (digits - shift)); [lia|].
  apply Z.pow_le_mono_r; lia.
Qed.

(** The mask the test builds for a unit of [lshift] bits. *)
Lemma shl64_one lshift :
  0 < lshift <= digits ->
  shl64 1 (digits - lshift) = Some (2 ^ (digits - lshift)) /\
  u64 (2 ^ (digits - lshift) - 1) = 2 ^ (digits - lshift) - 1.
Proof.
  intros H. unfold shl64.
  destruct (Z.leb_spec 0 (digits - lshift)); [|lia].
  destruct (Z.ltb_spec (digits - lshift) digits); [|lia]. cbn [andb].
  rewrite Z.shiftl_1_l.
  assert (0 < 2 ^ (digits - lshift) < 2 ^ digits).
  { split; [apply Z.pow_pos_nonneg; lia|apply Z.pow_lt_mono_r; lia]. }
  split.
  - rewrite u64_small; [reflexivity|]. unfold is_u64. lia.
  - apply u64_small. unfold is_u64. lia.
Qed.

(** *** The unit letters *)

Lemma unit_shift_table c sh : unit_shift c = Some sh -> In (c, sh) unit_table.
Proof.
  unfold unit_shift, is_char. intros H.
  repeat match type of H with
         | context [Ascii.eqb c ?x] =>
             destruct (Ascii.eqb_spec c x) as [->|];
             [vm_compute in H; injection H as <-; simpl; tauto|]
         end.
  discriminate H.
Qed.

Ltac each_unit H :=
  simpl in H;
  repeat (destruct H as [H|H]; [injection H as <- <-|]); [..|contradiction].

Lemma interpret_units_alone c sh :
  unit_shift c = Some sh -> interpret_units (String c EmptyString) = Some sh.
Proof.
  intros H. apply unit_shift_table in H. each_unit H; reflexivity.
Qed.

Lemma interpret_units_shift p sh sh' :
  suffix_shift (deref p) = Some sh -> interpret_units p = Some sh' -> sh' = sh.
Proof.
  unfold suffix_shift. destruct (Z.eqb_spec (code (deref p)) 0) as [Hz|Hz].
  - intros [= <-]. unfold interpret_units.
    destruct p as [|c p]; [intros [= <-]; reflexivity|].
    simpl in Hz. assert (c = zero) as ->.
    { rewrite <- (ascii_N_embedding c). unfold code in Hz.
      replace (N_of_ascii c) with 0%N by lia. reflexivity. }
    intros [= <-]. reflexivity.
  - intros H. apply unit_shift_table in H.
    destruct p as [|c p]; [simpl in Hz; contradiction Hz; reflexivity|].
    cbn [deref] in H.
    each_unit H; unfold interpret_units, label_t, label_g, label_m, label_k;
      simpl; destruct (code (deref p) =? 0); intros [= <-]; reflexivity.
Qed.

Lemma unit_shift_not_digit c sh :
  unit_shift c = Some sh -> isdigit c = false /\ code c <> 0 /\ 10 <= sh <= 40.
Proof.
  intros H. apply unit_shift_table in H.
  each_unit H; repeat split; try discriminate; lia.
Qed.

Lemma scan_digits_nonneg : forall s acc,
  0 <= acc -> 0 <= fst (scan_digits acc s).
Proof.
  induction s as [|c s IH]; intros acc Hacc; cbn [scan_digits fst];
    [exact Hacc|].
  destruct (isdigit c) eqn:Hc; [|exact Hacc].
  apply IH. apply isdigit_code in Hc. lia.
Qed.

(** [strtoull] returns a value of its type. *)
Lemma strtoull_ret_range nptr : is_u64 (ret (strtoull nptr)).
Proof.
  unfold strtoull.
  assert (Hzero : is_u64 0) by (unfold is_u64, digits; lia).
  destruct (match skip_space nptr with
            | String "-" s' => (true, s')
            | String "+" s' => (false, s')
            | _ => (false, skip_space nptr)
            end) as [neg body].
  destruct body as [|c body]; [exact Hzero|].
  destruct (isdigit c); [|exact Hzero].
  pose proof (scan_digits_nonneg (String c body) 0 ltac:(lia)) as Hn.
  destruct (scan_digits 0 (String c body)) as [n rest]. simpl in Hn.
  destruct (Z.gtb_spec n ULLONG_MAX) as [Hgt|Hle]; cbn [ret].
  - unfold is_u64, ULLONG_MAX, digits. lia.
  - destruct neg; [apply u64_range|].
    unfold is_u64. unfold ULLONG_MAX in Hle. lia.
Qed.

(** C3 (amended): a string of decimal digits followed by one of the unit
    letters K, M, G, T, in either case, whose shifted value fits in 64 bits,
    parses successfully to the number shifted left by 10, 20, 30 or 40
    bits. *)
Theorem C3_parse_unit_suffix (self : byte_units) (ds : string) (c : ascii)
        (sh : Z) :
  ds <> EmptyString -> all_digits ds = true ->
  unit_shift c = Some sh ->
  decimal ds * 2 ^ sh < 2 ^ digits ->
  parse self (ds ++ String c EmptyString) =
  Some (true, mk_byte_units (Z.shiftl (decimal ds) sh)).
Proof.
  intros Hne Hds Hunit Hfit.
  destruct (unit_shift_not_digit c sh Hunit) as (Hnd & Hnz & Hsh).
  pose proof (decimal_nonneg ds Hds) as Hpos.
  assert (Hp : 0 < 2 ^ sh) by (apply Z.pow_pos_nonneg; lia).
  assert (Hsplit : 2 ^ digits = 2 ^ (digits - sh) * 2 ^ sh).
  { rewrite <- Z.pow_add_r by (unfold digits; lia). f_equal. lia. }
  assert (Hlow : decimal ds < 2 ^ (digits - sh)) by nia.
  assert (Hn : is_u64 (decimal ds)) by (unfold is_u64; nia).
  unfold parse.
  rewrite c_str_digits by exact Hds. cbn [c_str].
  destruct (Z.eqb_spec (code c) 0) as [|_]; [contradiction|].
  rewrite strtoull_digits;
    [|exact Hne|exact Hds|exact Hnd|unfold ULLONG_MAX; unfold is_u64 in Hn; lia].
  cbn [ret errno endptr is_ERANGE nonzero andb].
  assert (Hptr : ptr_eq (String c EmptyString) (ds ++ String c EmptyString)
                 = false).
  { unfold ptr_eq. rewrite string_length_app.
    destruct ds as [|d ds]; [contradiction|]. cbn [String.length].
    apply Nat.eqb_neq. lia. }
  rewrite Hptr, (interpret_units_alone c sh Hunit).
  destruct (shl64_one sh) as [Hbit Hmask]; [unfold digits; lia|].
  rewrite Hbit, Hmask.
  assert (Hland : Z.land (decimal ds) (not64 (2 ^ (digits - sh) - 1)) = 0).
  { apply high_mask_zero; [exact Hn|unfold digits; lia|exact Hlow]. }
  rewrite Hland. cbn [Z.eqb negb].
  unfold shl64.
  destruct (Z.leb_spec 0 sh); [|lia].
  destruct (Z.ltb_spec sh digits); [|unfold digits in *; lia]. cbn [andb].
  rewrite u64_small; [reflexivity|].
  unfold is_u64. rewrite Z.shiftl_mul_pow2 by lia. nia.
Qed.

Lemma C3_parse_unit_suffix_witness :
  parse (mk_byte_units 4096) "64k" = Some (true, mk_byte_units 65536).
Proof.
  apply (C3_parse_unit_suffix (mk_byte_units 4096) "64" "k" 10).
  - discriminate.
  - reflexivity.
  - reflexivity.
  - vm_compute. reflexivity.
Defined.

(** C3 (as stated) fails: the unit letter B is not among the cases of the
    switch, so a number followed by B or b is refused and the object keeps
    its old value. *)
Lemma C3_suffix_B_refused :
  parse (mk_byte_units 4096) "1B" = Some (false, mk_byte_units 4096) /\
  parse (mk_byte_units 4096) "512b" = Some (false, mk_byte_units 4096).
Proof. split; vm_compute; reflexivity. Qed.

(** C4: when the character after the number stands for a shift and one of
    the top [shift] bits of the number [strtoull] returned is set, [parse]
    returns false and the object keeps the value it had. *)
Theorem C4_overflow_refused (self : byte_units) (val : string) (sh : Z) :
  suffix_shift (deref (endptr (strtoull (c_str val)))) = Some sh ->
  top_bit_set (ret (strtoull (c_str val))) sh ->
  parse self val = Some (false, self).
Proof.
  intros Hsh Htop. unfold parse.
  pose proof (strtoull_ret_range (c_str val)) as Hret.
  destruct (strtoull (c_str val)) as [n e p]. cbn [ret errno endptr] in *.
  destruct (is_ERANGE e && (n =? ULLONG_MAX)); [reflexivity|].
  destruct (nonzero e && (n =? 0)); [reflexivity|].
  destruct (ptr_eq p (c_str val)); [reflexivity|].
  destruct (interpret_units p) as [sh'|] eqn:Hunits; [|reflexivity].
  pose proof (interpret_units_shift p sh sh' Hsh Hunits) as ->.
  assert (Hrange : 10 <= sh <= 40).
  { unfold suffix_shift in Hsh.
    destruct (code (deref p) =? 0).
    - injection Hsh as <-. destruct Htop as (i & Hi & _). lia.
    - apply unit_shift_not_digit in Hsh. lia. }
  destruct (shl64_one sh) as [Hbit Hmask]; [unfold digits; lia|].
  rewrite Hbit, Hmask.
  assert (Hge : 2 ^ (digits - sh) <= n).
  { apply top_bit_set_ge; [unfold is_u64 in Hret|unfold digits|]; try lia.
    exact Htop. }
  destruct (Z.eqb_spec (Z.land n (not64 (2 ^ (digits - sh) - 1))) 0)
    as [Hz|Hz]; [|reflexivity].
  apply high_mask_zero in Hz; [lia|exact Hret|unfold digits; lia].
Qed.

Lemma C4_overflow_refused_witness :
  parse (mk_byte_units 4096) "16777216T" = Some (false, mk_byte_units 4096).
Proof.
  apply (C4_overflow_refused (mk_byte_units 4096) "16777216T" 40).
  - reflexivity.
  - exists 24. split; [unfold digits; lia|reflexivity].
Defined.

(** ** Display *)

Lemma keeps_dividing_dec x :
  (x >=? 1024) && negb ((x <? 1048576) && negb (x mod 1024 =? 0)) = true <->
  keeps_dividing x.
Proof.
  unfold keeps_dividing.
  destruct (Z.geb_spec x 1024), (Z.ltb_spec x 1048576),
    (Z.eqb_spec (x mod 1024) 0); simpl; split; intros Hyp;
    try discriminate; try reflexivity; lia.
Qed.

(** The loop follows the rule as long as the unit index stays below the
    bound of the guard: started at index [u] on a value below
    [1024 ^ (5 - u)] it ends on the value and the index the rule gives, and
    the index is at most 4. *)
Lemma scale_loop_spec : forall fuel x u,
  0 <= u <= 4 -> 0 <= x -> x * 1024 ^ u < 2 ^ 50 ->
  (Z.to_nat (4 - u) <= fuel)%nat ->
  exists y n,
    scale_loop fuel x u = Some (y, n) /\ spec_scaling x u y n /\ u <= n <= 4.
Proof.
  induction fuel as [|fuel IH]; intros x u Hu Hx Hbound Hfuel.
  - assert (u = 4) as -> by lia. change (1024 ^ 4) with 1099511627776 in Hbound.
    exists x, 4. cbn [scale_loop].
    destruct (Z.geb_spec x 1024); [lia|]. cbn [andb].
    split; [reflexivity|]. split; [|lia].
    apply scaling_stop. unfold keeps_dividing. lia.
  - cbn [scale_loop].
    assert (Hpow : 1024 ^ (u + 1) = 1024 * 1024 ^ u)
      by (rewrite Z.pow_add_r by lia; lia).
    assert (Hpos : 0 < 1024 ^ u) by (apply Z.pow_pos_nonneg; lia).
    destruct (Z.geb_spec x 1024) as [Hge|Hlt]; cbn [andb].
    + assert (Hu3 : u < 4).
      { destruct (Z.eq_dec u 4) as [->|]; [|lia].
        change (1024 ^ 4) with 1099511627776 in Hbound. lia. }
      unfold max_units. cbn [units List.length Z.of_nat Pos.of_succ_nat Pos.succ].
      destruct (Z.ltb_spec u 5); [|lia].
      destruct ((x <? 1048576) && negb (x mod 1024 =? 0)) eqn:Hbreak.
      * exists x, u. split; [reflexivity|]. split; [|lia].
        apply scaling_stop. intros Hk. apply keeps_dividing_dec in Hk.
        rewrite Hbreak in Hk. destruct (x >=? 1024); discriminate Hk.
      * rewrite Z.shiftr_div_pow2 by lia. change (2 ^ 10) with 1024.
        pose proof (Z.mul_div_le x 1024 ltac:(lia)) as Hdiv.
        destruct (IH (x / 1024) (u + 1)) as (y & n & Hrun & Hspec & Hn).
        -- lia.
        -- apply Z.div_pos; lia.
        -- rewrite Hpow. nia.
        -- lia.
        -- exists y, n. split; [exact Hrun|]. split; [|lia].
           apply scaling_divide; [|exact Hspec].
           apply keeps_dividing_dec. rewrite Hbreak.
           destruct (Z.geb_spec x 1024); [reflexivity|lia].
    + exists x, u. split; [reflexivity|]. split; [|lia].
      apply scaling_stop. unfold keeps_dividing. lia.
Qed.

(** C7 (amended): for a value below [2^50] the formatter divides by 1024
    exactly while the value is at least 1024 and is a multiple of 1024 or at
    least one mebibyte, and writes what is left, a space and the unit of
    the table that the number of divisions selects. *)
Theorem C7_display_below_2_50 (amount : byte_units) (fuel : nat) :
  0 <= v amount < 2 ^ 50 -> (4 <= fuel)%nat ->
  exists text,
    operator_out fuel amount = Some (Some text) /\
    spec_display (v amount) text.
Proof.
  intros Hv Hfuel.
  destruct (scale_loop_spec fuel (v amount) 0) as (y & n & Hrun & Hspec & Hn);
    [lia|lia|change (1024 ^ 0) with 1; lia|simpl; lia|].
  unfold operator_out. rewrite Hrun. unfold put_amount, units_at.
  destruct (Z.ltb_spec n 0); [lia|].
  assert (Hname : exists name, nth_error units (Z.to_nat n) = Some name).
  { assert (n = 0 \/ n = 1 \/ n = 2 \/ n = 3 \/ n = 4) as Hc by lia.
    destruct Hc as [->|[->|[->|[->| ->]]]]; eexists; reflexivity. }
  destruct Hname as [name Hname]. rewrite Hname.
  eexists. split; [reflexivity|].
  exists y, n, name. repeat split; assumption.
Qed.

Lemma C7_display_below_2_50_witness :
  exists text,
    operator_out 5 (mk_byte_units 1048577) = Some (Some text) /\
    spec_display 1048577 text.
Proof.
  apply (C7_display_below_2_50 (mk_byte_units 1048577) 5).
  - simpl. lia.
  - lia.
Defined.

(** C7 (as stated) fails from [2^50] on: at [2^50] the loop divides five
    times and ends with unit index 5, for which the table has no name, so no
    text with a unit of the table is written; at [2^63] the loop ends on
    8192, a multiple of 1024 that the rule would still divide. *)
Lemma C7_display_fails_at_2_50 :
  (~ exists fuel text,
       operator_out fuel (mk_byte_units (2 ^ 50)) = Some (Some text)) /\
  scale_loop 5 (2 ^ 63) 0 = Some (8192, 5) /\ keeps_dividing 8192.
Proof.
  split; [|split].
  - intros (fuel & text & H).
    do 5 (destruct fuel as [|fuel]; [vm_compute in H; discriminate H|]).
    destruct fuel; vm_compute in H; discriminate H.
  - reflexivity.
  - unfold keeps_dividing. split; [lia|]. left. reflexivity.
Qed.

(** C10: for the value [2^50] the loop ends with unit index 5, equal to the
    number of entries of the table, and the read of [units[5]] is outside
    the table. *)
Theorem C10_unit_index_past_table :
  scale_loop 5 (2 ^ 50) 0 = Some (1, 5) /\
  max_units = 5 /\
  units_at 5 = None /\
  operator_out 5 (mk_byte_units (2 ^ 50)) = Some None.
Proof. repeat split. Qed.

(** ** Statistics *)

Lemma u64_int_nonneg x : is_int x -> 0 <= x -> u64 x = x.
Proof.
  intros Hx H0. apply u64_small. unfold is_int in Hx. unfold is_u64, digits.
  lia.
Qed.

(** C5 (amended): when repeats and threads are not negative, the block size
    and the elapsed time are positive and [total_bytes * 1000000] is below
    [2^64], the figures are [total_bytes = size * repeats * threads],
    [rate = total_bytes * 1000000 / elapsed] and
    [iops = (total_bytes * 1000000 / block_size) / elapsed]; they are the
    reference figures when the block size divides [total_bytes]. *)
Theorem C5_statistics_without_wrap (cfg : Config) (count : Z) :
  typed cfg -> 0 <= repeats cfg -> 0 <= threads cfg ->
  0 < v (block_size cfg) -> 0 < count < 2 ^ 63 ->
  v (size cfg) * repeats cfg * threads cfg * 1000000 < 2 ^ digits ->
  let total_bytes := v (size cfg) * repeats cfg * threads cfg in
  main_statistics cfg count =
    Some (mk_statistics
            (mk_byte_units total_bytes)
            (mk_byte_units (total_bytes * 1000000 / count))
            (total_bytes * 1000000 / v (block_size cfg) / count)) /\
  (total_bytes mod v (block_size cfg) = 0 ->
   main_statistics cfg count = Some (exact_statistics cfg count)).
Proof.
  intros (Hsize & Hblock & Hrep & Hthr) Hr Ht Hb Hc Hfit total_bytes.
  assert (Htotal : 0 <= total_bytes).
  { unfold total_bytes, is_u64 in *.
    apply Z.mul_nonneg_nonneg; [apply Z.mul_nonneg_nonneg|]; lia. }
  assert (Hrun : main_statistics cfg count =
    Some (mk_statistics
            (mk_byte_units total_bytes)
            (mk_byte_units (total_bytes * 1000000 / count))
            (total_bytes * 1000000 / v (block_size cfg) / count))).
  { unfold main_statistics.
    rewrite (u64_int_nonneg (repeats cfg)), (u64_int_nonneg (threads cfg))
      by assumption.
    assert (Hinner :
      u64 (u64 (v (size cfg) * repeats cfg) * threads cfg) = total_bytes).
    { destruct (Z.eq_dec (threads cfg) 0) as [Hz|Hnz].
      - unfold total_bytes. rewrite Hz, !Z.mul_0_r. reflexivity.
      - assert (0 <= v (size cfg) * repeats cfg)
          by (unfold is_u64 in Hsize; apply Z.mul_nonneg_nonneg; lia).
        rewrite (u64_small (v (size cfg) * repeats cfg))
          by (unfold is_u64; fold total_bytes in Hfit; unfold total_bytes in *;
              nia).
        apply u64_small. unfold is_u64. fold total_bytes. lia. }
    rewrite Hinner.
    rewrite (u64_small (1000000 * total_bytes)) by (unfold is_u64; lia).
    rewrite (u64_small count) by (unfold is_u64, digits; lia).
    unfold udiv.
    destruct (Z.eqb_spec count 0); [lia|].
    destruct (Z.eqb_spec (v (block_size cfg)) 0); [lia|].
    rewrite (Z.mul_comm 1000000 total_bytes). reflexivity. }
  split; [exact Hrun|].
  intros Hdiv. rewrite Hrun. unfold exact_statistics. fold total_bytes.
  do 2 f_equal.
  apply Z.mod_divide in Hdiv; [|lia]. destruct Hdiv as [q Hq].
  rewrite Hq. rewrite Z.div_mul by lia.
  replace (q * v (block_size cfg) * 1000000)
    with (q * 1000000 * v (block_size cfg)) by ring.
  rewrite Z.div_mul by lia. reflexivity.
Qed.

Lemma C5_statistics_without_wrap_witness :
  main_statistics default_Config 1000000 =
    Some (mk_statistics (mk_byte_units 1048576) (mk_byte_units 1048576) 256) /\
  (1048576 mod 4096 = 0 ->
   main_statistics default_Config 1000000 =
     Some (exact_statistics default_Config 1000000)).
Proof.
  apply (C5_statistics_without_wrap default_Config 1000000).
  - unfold typed, is_u64, is_int, digits; simpl; lia.
  - simpl; lia.
  - simpl; lia.
  - simpl; lia.
  - lia.
  - unfold digits; simpl; lia.
Defined.

(** C5 (as stated) fails.  With a size of 3K in blocks of 2K and 1000
    microseconds the code reports 1500 iops and the reference formula gives
    1000; with a size of 17T the product by 1000000 wraps and the rate is
    not the reference rate; with a size of [2^63] and two repeats the total
    itself wraps to 0. *)
Lemma C5_statistics_differ :
  let small := mk_Config (mk_byte_units 3072) (mk_byte_units 2048) 1 1 false in
  let large :=
    mk_Config (mk_byte_units (17 * 2 ^ 40)) (mk_byte_units 4096) 1 1 false in
  let huge :=
    mk_Config (mk_byte_units (2 ^ 63)) (mk_byte_units 4096) 2 1 false in
  (option_map st_iops (main_statistics small 1000) = Some 1500 /\
   st_iops (exact_statistics small 1000) = 1000) /\
  (option_map st_rate (main_statistics large 1000000)
     = Some (mk_byte_units 244953598482) /\
   st_rate (exact_statistics large 1000000) = mk_byte_units 18691697672192) /\
  (option_map st_total (main_statistics huge 1000000)
     = Some (mk_byte_units 0) /\
   st_total (exact_statistics huge 1000000) = mk_byte_units (2 ^ 64)).
Proof. repeat split. Qed.

(** C6 (amended): with an elapsed time of zero the division is carried out
    unguarded: the statistics have no defined value and the run reports no
    error. *)
Theorem C6_zero_elapsed_undefined (cfg : Config) :
  main_statistics cfg 0 = None /\
  main_run true 0 0 cfg 0 = Undefined.
Proof.
  assert (H : main_statistics cfg 0 = None) by reflexivity.
  split; [exact H|]. unfold main_run. rewrite H. reflexivity.
Qed.

(** C6 (as stated) fails: on the default configuration, with the store
    created and mounted, a duration of zero does not end the run with a
    reported error. *)
Lemma C6_zero_elapsed_not_reported :
  ~ exists status message,
      main_run true 0 0 default_Config 0 = Reported status message.
Proof. intros (status & message & H). discriminate H. Qed.

(** ** Partitioning *)

Section StartingOffsets.

Variable cfg : Config.
Hypothesis cfg_typed : typed cfg.
Hypothesis threads_pos : 1 <= threads cfg.

Let sz := v (size cfg).
Let n := threads cfg.

Lemma starting_offset_value i :
  0 <= i < n -> starting_offset cfg i = Some (u64 (i * sz) / n).
Proof.
  intros Hi. destruct cfg_typed as (_ & _ & _ & Hthr).
  unfold starting_offset, udiv. fold sz n.
  assert (Hint : is_int i) by (unfold is_int in *; fold n in Hthr; lia).
  rewrite (u64_int_nonneg i Hint) by lia.
  rewrite (u64_int_nonneg n Hthr) by (subst n; lia).
  destruct (Z.eqb_spec n 0); [subst n; lia|reflexivity].
Qed.

Lemma starting_offset_below i :
  0 <= i < n -> 0 < sz -> 0 <= u64 (i * sz) / n < sz.
Proof.
  intros Hi Hsz. pose proof (u64_range (i * sz)) as Hr. unfold is_u64 in Hr.
  assert (Hle : u64 (i * sz) <= i * sz).
  { unfold u64. apply Z.mod_le; [nia|]. apply Z.pow_pos_nonneg; unfold digits; lia. }
  split.
  - apply Z.div_pos; lia.
  - apply Z.div_lt_upper_bound; [lia|]. nia.
Qed.

Lemma starting_offset_exact i :
  0 <= i < n -> (n - 1) * sz < 2 ^ digits -> u64 (i * sz) = i * sz.
Proof.
  intros Hi Hfit. destruct cfg_typed as (Hsize & _). fold sz in Hsize.
  apply u64_small. unfold is_u64 in *. nia.
Qed.

End StartingOffsets.

(** C8 (amended): for at least one thread, a total size above zero and
    [0 <= i < threads], worker [i] is given an offset strictly below the
    total size.  When [(threads - 1) * size] is below [2^64] the offset is
    [i * size / threads] and the offsets do not decrease with [i]; when
    moreover the size is an exact multiple of [threads * block_size], every
    offset is a multiple of the block size and both assertions of the worker
    hold. *)
Theorem C8_starting_offsets (cfg : Config) (i : Z) :
  typed cfg -> 1 <= threads cfg -> 0 <= i < threads cfg ->
  0 < v (size cfg) ->
  exists off,
    starting_offset cfg i = Some off /\
    0 <= off < v (size cfg) /\
    ((threads cfg - 1) * v (size cfg) < 2 ^ digits ->
     off = i * v (size cfg) / threads cfg /\
     (forall j off', i <= j < threads cfg ->
        starting_offset cfg j = Some off' -> off <= off') /\
     (0 < v (block_size cfg) ->
      v (size cfg) mod (threads cfg * v (block_size cfg)) = 0 ->
      off mod v (block_size cfg) = 0 /\
      worker_asserts cfg off = Some true)).
Proof.
  intros Htyped Hn Hi Hsz.
  exists (u64 (i * v (size cfg)) / threads cfg).
  split; [apply starting_offset_value; assumption|].
  pose proof (starting_offset_below cfg Hn i Hi Hsz) as Hbelow.
  split; [exact Hbelow|].
  intros Hfit.
  rewrite (starting_offset_exact cfg Htyped Hn i Hi Hfit) in *.
  split; [reflexivity|]. split.
  - intros j off' Hj Hrun.
    rewrite (starting_offset_value cfg Htyped Hn j) in Hrun by lia.
    rewrite (starting_offset_exact cfg Htyped Hn j) in Hrun by lia.
    injection Hrun as <-.
    apply Z.div_le_mono; [lia|]. nia.
  - intros Hblk Hdiv.
    apply Z.mod_divide in Hdiv; [|nia]. destruct Hdiv as [q Hq].
    assert (Hoff : i * v (size cfg) / threads cfg = i * q * v (block_size cfg)).
    { rewrite Hq.
      replace (i * (q * (threads cfg * v (block_size cfg))))
        with (i * q * v (block_size cfg) * threads cfg) by ring.
      apply Z.div_mul. lia. }
    assert (Hmod : (i * v (size cfg) / threads cfg) mod v (block_size cfg) = 0).
    { rewrite Hoff. apply Z.mod_mul. lia. }
    split; [exact Hmod|].
    unfold worker_asserts, urem.
    destruct (Z.ltb_spec (i * v (size cfg) / threads cfg) (v (size cfg)));
      [|lia].
    destruct (Z.eqb_spec (v (block_size cfg)) 0); [lia|].
    rewrite Hmod. reflexivity.
Qed.

Lemma C8_starting_offsets_witness :
  exists off,
    starting_offset
      (mk_Config (mk_byte_units 65536) (mk_byte_units 16384) 2 4 false) 3
      = Some off /\
    0 <= off < 65536 /\
    ((4 - 1) * 65536 < 2 ^ digits ->
     off = 3 * 65536 / 4 /\
     (forall j off', 3 <= j < 4 ->
        starting_offset
          (mk_Config (mk_byte_units 65536) (mk_byte_units 16384) 2 4 false) j
          = Some off' -> off <= off') /\
     (0 < 16384 ->
      65536 mod (4 * 16384) = 0 ->
      off mod 16384 = 0 /\
      worker_asserts
        (mk_Config (mk_byte_units 65536) (mk_byte_units 16384) 2 4 false) off
        = Some true)).
Proof.
  apply (C8_starting_offsets
           (mk_Config (mk_byte_units 65536) (mk_byte_units 16384) 2 4 false) 3).
  - unfold typed, is_u64, is_int, digits; simpl; lia.
  - simpl; lia.
  - simpl; lia.
  - simpl; lia.
Defined.

(** C8 (as stated) fails.  With a size of zero the only offset, 0, is not
    below the size and the first assertion of the worker fails.  With a size
    of [2^63] and three threads the product [2 * size] wraps, and the third
    offset, 0, is below the second.  With a size of 2001K, blocks of 1K and
    2000 threads the size and the quotient [size / threads] in integer
    division are multiples of the block size, and the third offset, 2049, is
    not. *)
Lemma C8_offsets_fail :
  let empty := mk_Config (mk_byte_units 0) (mk_byte_units 4096) 1 1 false in
  let huge := mk_Config (mk_byte_units (2 ^ 63)) (mk_byte_units 4096) 1 3 false in
  let many :=
    mk_Config (mk_byte_units (2001 * 1024)) (mk_byte_units 1024) 1 2000 false in
  (starting_offset empty 0 = Some 0 /\ ~ 0 < v (size empty) /\
   worker_asserts empty 0 = Some false) /\
  (starting_offset huge 1 = Some 3074457345618258602 /\
   starting_offset huge 2 = Some 0) /\
  (v (size many) mod v (block_size many) = 0 /\
   (v (size many) / threads many) mod v (block_size many) = 0 /\
   starting_offset many 2 = Some 2049 /\
   2049 mod v (block_size many) = 1 /\
   worker_asserts many 2049 = Some false).
Proof. repeat split. simpl. lia. Qed.

(** ** The completion handshake *)

Module NotifyCondFacts.
Import NotifyCond.

Ltac crush_inv :=
  unfold invariant in *; cbn in *;
  repeat match goal with
         | H : _ /\ _ |- _ => destruct H
         | f : finish_pc |- _ => destruct f
         | w : wait_pc |- _ => destruct w
         | d : bool |- _ => destruct d
         end;
  cbn in *; try discriminate;
  intuition (try discriminate; try congruence).

Lemma invariant_init : invariant init.
Proof. crush_inv. Qed.

Lemma invariant_step s l s' : invariant s -> step s l s' -> invariant s'.
Proof. intros Hinv Hstep. destruct Hstep; crush_inv. Qed.

Lemma invariant_steps s s' : steps s s' -> invariant s -> invariant s'.
Proof.
  induction 1 as [|s l s1 s2 Hstep _ IH]; intros Hinv; [exact Hinv|].
  apply IH. exact (invariant_step _ _ _ Hinv Hstep).
Qed.

Lemma invariant_reachable s : reachable s -> invariant s.
Proof. intros H. exact (invariant_steps _ _ H invariant_init). Qed.

Lemma signalled_awake_step s l s' :
  signalled_awake s -> step s l s' -> signalled_awake s'.
Proof.
  unfold signalled_awake, suspended. intros [Hd Hw] Hstep.
  destruct Hstep; cbn in *;
    repeat match goal with
           | w : wait_pc |- _ => destruct w
           end;
    cbn in *; intuition (try discriminate; try congruence).
Qed.

Lemma signalled_awake_steps s s' :
  steps s s' -> signalled_awake s -> signalled_awake s'.
Proof.
  induction 1 as [|s l s1 s2 Hstep _ IH]; intros H; [exact H|].
  apply IH. exact (signalled_awake_step _ _ _ H Hstep).
Qed.

Lemma progress s :
  invariant s -> ~ final s -> exists s', step s Regular s'.
Proof.
  destruct s as [m d f w]. unfold invariant, final. cbn.
  intros (Hm & _ & Hd & Hret & Hblocked & Hwaiting) Hfinal.
  destruct f, w; cbn in *; subst m d;
    try (exfalso; apply Hfinal; split; reflexivity);
    try (specialize (Hblocked eq_refl); discriminate Hblocked);
    try (specialize (Hwaiting eq_refl); discriminate Hwaiting);
    try (assert (false = true) as Habs by (apply Hret; tauto);
         discriminate Habs);
    eexists; solve [econstructor].
Qed.

Lemma rank_decreases s s' :
  invariant s -> step s Regular s' -> (rank s' < rank s)%nat.
Proof.
  intros Hinv Hstep. inversion Hstep; subst; unfold rank; cbn;
    unfold invariant in Hinv; cbn in Hinv;
    destruct Hinv as (Hm & Hex & Hd & Hret & Hblocked & Hwaiting);
    repeat match goal with
           | f : finish_pc |- _ => destruct f
           | w : wait_pc |- _ => destruct w
           | d : bool |- _ => destruct d
           end; cbn in *; try discriminate; lia.
Qed.

(** After a signal the worker that has not yet begun to wait can run to
    its return. *)
Lemma signalled_wait_returns s :
  invariant s -> done s = true -> wpc s = W_start ->
  exists s', steps s s' /\ final s'.
Proof.
  destruct s as [m d f w]. unfold invariant. cbn.
  intros (Hm & _ & Hd & _) -> ->.
  destruct f; cbn in *; try discriminate Hd; subst m;
    eexists;
    (split;
     [repeat (eapply steps_more; [econstructor|]); apply steps_refl
     |split; reflexivity]).
Qed.

End NotifyCondFacts.

(** C9: in every state of every interleaving of one [finish] with one wait
    of the worker, (1) [done] is written and read by the thread that owns
    the mutex, and the two threads never own it together; (2) the worker is
    past its wait only when [done] is set, and between a predicate found
    false and the call of [wait] that releases the mutex [done] is still
    false, so no signal falls between the test and the block; (3) when
    [done] has been set before the worker begins to wait, the worker never
    finds the predicate false and never blocks on the condition variable,
    whatever the interleaving from there on, and it can run to its return;
    (4) while the worker is blocked, the call of [notify_one] is still to
    come, some thread can always take a step that is not a spurious wake-up
    until both have returned, and every such step brings the two threads
    closer to their return. *)
Theorem C9_no_missed_wakeup (s : NotifyCond.state) :
  NotifyCond.reachable s ->
  (NotifyCond.mutex s =
     (if NotifyCond.finish_holds (NotifyCond.fpc s) then Some NotifyCond.Finisher
      else if NotifyCond.wait_holds (NotifyCond.wpc s) then Some NotifyCond.Worker else None) /\
   NotifyCond.finish_holds (NotifyCond.fpc s) && NotifyCond.wait_holds (NotifyCond.wpc s) = false) /\
  ((NotifyCond.wpc s = NotifyCond.W_passed \/
    NotifyCond.wpc s = NotifyCond.W_returned -> NotifyCond.done s = true) /\
   (NotifyCond.wpc s = NotifyCond.W_waiting -> NotifyCond.done s = false)) /\
  (NotifyCond.done s = true -> NotifyCond.wpc s = NotifyCond.W_start ->
   (forall s', NotifyCond.steps s s' -> ~ NotifyCond.suspended s') /\
   (exists s', NotifyCond.steps s s' /\ NotifyCond.final s')) /\
  (NotifyCond.wpc s = NotifyCond.W_blocked -> NotifyCond.notify_ahead (NotifyCond.fpc s) = true) /\
  (~ NotifyCond.final s -> exists s', NotifyCond.step s NotifyCond.Regular s') /\
  (forall s', NotifyCond.step s NotifyCond.Regular s' ->
     (NotifyCond.rank s' < NotifyCond.rank s)%nat).
Proof.
  intros Hreach.
  pose proof (NotifyCondFacts.invariant_reachable s Hreach) as Hinv.
  split; [|split; [|split; [|split; [|split]]]].
  - destruct Hinv as (Hm & Hex & _). split; assumption.
  - destruct Hinv as (_ & _ & _ & Hover & _ & Hwaiting).
    split; assumption.
  - intros Hdone Hstart. split.
    + intros s' Hsteps.
      apply (NotifyCondFacts.signalled_awake_steps s s' Hsteps).
      split; [exact Hdone|]. unfold NotifyCond.suspended. rewrite Hstart.
      intros [E|[E|E]]; discriminate E.
    + apply NotifyCondFacts.signalled_wait_returns; assumption.
  - destruct Hinv as (_ & _ & _ & _ & Hblocked & _). exact Hblocked.
  - apply NotifyCondFacts.progress. exact Hinv.
  - intros s'. apply NotifyCondFacts.rank_decreases. exact Hinv.
Qed.

Lemma C9_no_missed_wakeup_witness :
  NotifyCond.reachable NotifyCond.signalled_first /\
  (forall s', NotifyCond.steps NotifyCond.signalled_first s' -> ~ NotifyCond.suspended s') /\
  (exists s', NotifyCond.steps NotifyCond.signalled_first s' /\ NotifyCond.final s').
Proof.
  assert (Hreach : NotifyCond.reachable NotifyCond.signalled_first).
  { unfold NotifyCond.reachable, NotifyCond.init, NotifyCond.signalled_first.
    eapply NotifyCond.steps_more; [apply NotifyCond.finish_lock|].
    eapply NotifyCond.steps_more; [apply NotifyCond.finish_set|].
    eapply NotifyCond.steps_more; [apply NotifyCond.finish_notify|].
    eapply NotifyCond.steps_more; [apply NotifyCond.finish_unlock|].
    apply NotifyCond.steps_refl. }
  split; [exact Hreach|].
  destruct (C9_no_missed_wakeup NotifyCond.signalled_first Hreach)
    as (_ & _ & Hsignalled & _).
  apply Hsignalled; reflexivity.
Defined.

(* ================================================================= *)
(** * Further properties of the code *)

(** ** The write cycle *)

Section CycleOffsets.

Variable cfg : Config.
Let blk := v (block_size cfg).
Let sz := v (size cfg).
Hypothesis blk_pos : 0 < blk.
Hypothesis sz_range : is_u64 sz.

(** Whatever the fuel, a loop that ends has written [len] bytes in
    [ceil(len / blk)] writes. *)
Lemma write_loop_sum : forall fuel offset len tls,
  is_u64 len ->
  write_loop fuel cfg offset len [] = Some tls ->
  total (counts tls) = len /\
  Z.of_nat (List.length tls) = (len + blk - 1) / blk.
Proof.
  induction fuel as [|fuel IH]; intros offset len tls Hlen Hrun;
    cbn [write_loop] in Hrun;
    destruct (Z.eqb_spec len 0) as [->|Hnz]; try discriminate Hrun.
  - injection Hrun as <-. split; [reflexivity|].
    cbn [List.length Z.of_nat]. symmetry. apply Z.div_small. lia.
  - injection Hrun as <-. split; [reflexivity|].
    cbn [List.length Z.of_nat]. symmetry. apply Z.div_small. lia.
  - fold blk in Hrun.
    set (count := if len <? blk then len else blk) in Hrun.
    assert (Hc : 0 < count <= len /\ count <= blk).
    { subst count. unfold is_u64 in Hlen.
      destruct (Z.ltb_spec len blk); lia. }
    assert (Hrest : is_u64 (len - count)) by (unfold is_u64 in *; lia).
    rewrite (u64_small (len - count)) in Hrun by exact Hrest.
    rewrite write_loop_app in Hrun.
    destruct (write_loop fuel cfg _ (len - count) []) as [rest|] eqn:Hrec;
      [|discriminate Hrun].
    injection Hrun as <-.
    destruct (IH _ _ _ Hrest Hrec) as [Hsum Hlength].
    split.
    + unfold counts in *. cbn [app map total fold_right w_count].
      fold (total (map w_count rest)). rewrite Hsum. lia.
    + cbn [app List.length]. rewrite Nat2Z.inj_succ, Hlength.
      destruct (Z.ltb_spec len blk) as [Hlt|Hge]; subst count.
      * replace (len - len + blk - 1) with (blk - 1) by lia.
        rewrite (Z.div_small (blk - 1)) by lia.
        apply Z.div_unique with (r := len - 1); [left; lia|lia].
      * replace (len + blk - 1) with (len - blk + blk - 1 + 1 * blk) by lia.
        rewrite Z.div_add by lia. lia.
Qed.

(** A cycle begun at offset 0 never wraps: each write starts where the
    bytes written before it end. *)
Lemma write_loop_contiguous : forall fuel offset len tls,
  0 <= offset -> is_u64 len -> offset + len = sz ->
  write_loop fuel cfg offset len [] = Some tls ->
  forall pre w post, tls = pre ++ w :: post ->
    w_offset w = offset + total (counts pre).
Proof.
  induction fuel as [|fuel IH]; intros offset len tls Hoff Hlen Hsz Hrun;
    cbn [write_loop] in Hrun;
    destruct (Z.eqb_spec len 0) as [->|Hnz]; try discriminate Hrun;
    try (injection Hrun as <-; intros [|? ?] ? ? E; discriminate E).
  fold blk sz in Hrun.
  set (count := if len <? blk then len else blk) in Hrun.
  assert (Hc : 0 < count <= len).
  { subst count. unfold is_u64 in Hlen. destruct (Z.ltb_spec len blk); lia. }
  assert (Hrest : is_u64 (len - count)) by (unfold is_u64 in *; lia).
  rewrite (u64_small (len - count)) in Hrun by exact Hrest.
  rewrite (u64_small (offset + count)) in Hrun
    by (unfold is_u64 in *; lia).
  destruct (Z.gtb_spec (offset + count) sz) as [Hgt|_]; [lia|].
  rewrite write_loop_app in Hrun.
  destruct (write_loop fuel cfg _ (len - count) []) as [rest|] eqn:Hrec;
    [|discriminate Hrun].
  injection Hrun as <-.
  intros [|w0 pre] w post E; cbn [app] in E; injection E as E1 E2.
  - subst w. cbn [w_offset counts map total fold_right]. lia.
  - subst w0.
    rewrite (IH (offset + count) (len - count) rest ltac:(lia) Hrest
               ltac:(lia) Hrec pre w post E2).
    unfold counts, total. cbn [map fold_right w_count]. lia.
Qed.

(** From any start: the running offset stays within [0, sz] and differs
    from [offset] plus the bytes written so far by a multiple of [sz]. *)
Lemma write_loop_wraps : forall fuel offset len tls,
  sz + blk < 2 ^ digits ->
  0 <= offset <= sz -> 0 <= len <= sz ->
  write_loop fuel cfg offset len [] = Some tls ->
  forall pre w post, tls = pre ++ w :: post ->
    0 <= w_offset w <= sz /\
    (sz | w_offset w - (offset + total (counts pre))).
Proof.
  induction fuel as [|fuel IH]; intros offset len tls Hfit Hoff Hlen Hrun;
    cbn [write_loop] in Hrun;
    destruct (Z.eqb_spec len 0) as [->|Hnz]; try discriminate Hrun;
    try (injection Hrun as <-; intros [|? ?] ? ? E; discriminate E).
  fold blk sz in Hrun.
  set (count := if len <? blk then len else blk) in Hrun.
  assert (Hc : 0 < count <= len /\ count <= blk).
  { subst count. destruct (Z.ltb_spec len blk); lia. }
  rewrite (u64_small (len - count)) in Hrun by (unfold is_u64; lia).
  rewrite (u64_small (offset + count)) in Hrun by (unfold is_u64; lia).
  rewrite write_loop_app in Hrun.
  set (next := if offset + count >? sz then u64 (offset + count - sz)
               else offset + count) in Hrun.
  assert (Hnext : 0 <= next <= sz /\ (sz | next - (offset + count))).
  { subst next. destruct (Z.gtb_spec (offset + count) sz) as [Hgt|Hle].
    - rewrite u64_small by (unfold is_u64; lia). split; [lia|].
      exists (-1). lia.
    - split; [lia|]. exists 0. lia. }
  destruct (write_loop fuel cfg next (len - count) []) as [rest|] eqn:Hrec;
    [|discriminate Hrun].
  injection Hrun as <-.
  intros [|w0 pre] w post E; cbn [app] in E; injection E as E1 E2.
  - subst w. cbn [w_offset counts map total fold_right].
    split; [lia|]. exists 0. lia.
  - subst w0.
    destruct (IH next (len - count) rest Hfit ltac:(lia) ltac:(lia) Hrec
                 pre w post E2) as [Hrange [k Hk]].
    split; [exact Hrange|].
    destruct Hnext as [_ [j Hj]].
    exists (k + j). unfold counts, total in *.
    cbn [map fold_right w_count]. lia.
Qed.

End CycleOffsets.

Lemma asserts_block_pos cfg start :
  typed cfg -> worker_asserts cfg start = Some true ->
  0 < v (block_size cfg) /\ start < v (size cfg).
Proof.
  intros (_ & Hblock & _) H. unfold worker_asserts, urem in H.
  destruct (Z.ltb_spec start (v (size cfg))) as [Hlt|]; [|discriminate H].
  destruct (Z.eqb_spec (v (block_size cfg)) 0); [discriminate H|].
  unfold is_u64 in Hblock. lia.
Qed.

Lemma repeat_cycles_inv n fuel cfg start cycles :
  repeat_cycles n fuel cfg start = Some cycles ->
  n = 0%nat /\ cycles = [] \/
  exists tls, write_cycle fuel cfg start = Some tls /\ cycles = repeat tls n.
Proof.
  destruct n as [|n]; cbn [repeat_cycles]; intros H.
  - left. injection H as <-. split; reflexivity.
  - right. destruct (write_cycle fuel cfg start) as [tls|] eqn:Hrun;
      [|discriminate H].
    rewrite (repeat_cycles_all n fuel cfg start tls Hrun) in H.
    injection H as <-. exists tls. split; reflexivity.
Qed.

Lemma counts_app l1 l2 : total (counts (l1 ++ l2)) =
                         total (counts l1) + total (counts l2).
Proof.
  unfold counts, total. induction l1 as [|w l1 IH]; cbn [app map fold_right];
    [reflexivity|]. rewrite IH. lia.
Qed.

Lemma bytes_written_repeat tls n :
  bytes_written (repeat tls n) = Z.of_nat n * total (counts tls).
Proof.
  unfold bytes_written. induction n as [|n IH].
  - reflexivity.
  - cbn [repeat List.concat]. rewrite counts_app, IH, Nat2Z.inj_succ. lia.
Qed.

(** A worker that has run to its end has asked for [size] bytes in each of
    its cycles. *)
Lemma worker_ran_bytes fuel cfg start cycles :
  typed cfg ->
  osbench_worker fuel cfg start = Some (Some cycles) ->
  bytes_written cycles = v (size cfg) * Z.max 0 (repeats cfg).
Proof.
  intros Htyped Hrun. unfold osbench_worker in Hrun.
  destruct (worker_asserts cfg start) as [[|]|] eqn:Hassert;
    try discriminate Hrun.
  destruct (asserts_block_pos cfg start Htyped Hassert) as [Hblk _].
  destruct (repeat_cycles _ fuel cfg start) as [c|] eqn:Hcycles;
    [|discriminate Hrun].
  injection Hrun as <-.
  destruct (repeat_cycles_inv _ _ _ _ _ Hcycles)
    as [[Hn ->]|(tls & Hcycle & ->)].
  - unfold bytes_written. cbn. lia.
  - rewrite bytes_written_repeat.
    destruct Htyped as (Hsize & _).
    destruct (write_loop_sum cfg Hblk fuel start _ tls Hsize Hcycle)
      as [Hsum _].
    rewrite Hsum. lia.
Qed.

(** Every write the loop issues has a length above zero. *)
Lemma write_loop_positive cfg : forall fuel offset len tls,
  0 < v (block_size cfg) -> is_u64 len ->
  write_loop fuel cfg offset len [] = Some tls ->
  Forall (fun w => 0 < w_count w) tls.
Proof.
  induction fuel as [|fuel IH]; intros offset len tls Hblk Hlen Hrun;
    cbn [write_loop] in Hrun;
    destruct (Z.eqb_spec len 0) as [->|Hnz]; try discriminate Hrun;
    try (injection Hrun as <-; constructor).
  set (count := if len <? v (block_size cfg) then len
                else v (block_size cfg)) in Hrun.
  assert (Hc : 0 < count <= len).
  { subst count. unfold is_u64 in Hlen.
    destruct (Z.ltb_spec len (v (block_size cfg))); lia. }
  assert (Hrest : is_u64 (len - count)) by (unfold is_u64 in *; lia).
  rewrite (u64_small (len - count)) in Hrun by exact Hrest.
  rewrite write_loop_app in Hrun.
  destruct (write_loop fuel cfg _ (len - count) []) as [rest|] eqn:Hrec;
    [|discriminate Hrun].
  injection Hrun as <-. cbn [app]. constructor.
  - cbn [w_count]. lia.
  - exact (IH _ _ _ Hblk Hrest Hrec).
Qed.

(** X1: a worker that starts at offset 0 writes the object front to back:
    the cycle ends, its writes add up to the total size, and each write
    begins where the bytes written before it end, has a length above zero
    and ends within the total size; so the writes tile the range from 0 to
    the total size in order, without gap or overlap. *)
Theorem cycle_from_zero_contiguous (cfg : Config) (fuel : nat) :
  typed cfg -> 0 < v (block_size cfg) ->
  (Z.to_nat (v (size cfg)) <= fuel)%nat ->
  exists tls,
    write_cycle fuel cfg 0 = Some tls /\
    total (counts tls) = v (size cfg) /\
    forall pre w post, tls = pre ++ w :: post ->
      w_offset w = total (counts pre) /\
      0 < w_count w /\
      w_offset w + w_count w <= v (size cfg).
Proof.
  intros (Hsize & _) Hblk Hfuel.
  destruct (write_loop_counts cfg Hblk fuel 0 (v (size cfg)) Hsize Hfuel)
    as (tls & Hrun & Hmin & Hsum & _).
  exists tls. split; [exact Hrun|]. split; [exact Hsum|].
  intros pre w post E.
  pose proof (write_loop_contiguous cfg Hblk Hsize fuel 0 (v (size cfg)) tls
                ltac:(lia) Hsize ltac:(lia) Hrun pre w post E) as Hoff.
  rewrite Z.add_0_l in Hoff. split; [exact Hoff|].
  pose proof (write_loop_positive cfg fuel 0 (v (size cfg)) tls Hblk Hsize
                Hrun) as Hpos.
  rewrite Forall_forall in Hpos.
  assert (Hw : 0 < w_count w).
  { apply Hpos. rewrite E. apply in_or_app. right. left. reflexivity. }
  split; [exact Hw|].
  rewrite Hoff, (Hmin pre w post E). lia.
Qed.

Lemma cycle_from_zero_contiguous_witness :
  exists tls,
    write_cycle 10 (cfg_of 10 4) 0 = Some tls /\
    total (counts tls) = 10 /\
    forall pre w post, tls = pre ++ w :: post ->
      w_offset w = total (counts pre) /\
      0 < w_count w /\
      w_offset w + w_count w <= 10.
Proof.
  apply (cycle_from_zero_contiguous (cfg_of 10 4) 10).
  - unfold typed, is_u64, is_int, digits; simpl; lia.
  - simpl; lia.
  - simpl; lia.
Defined.

(** X2: from any starting offset that passes the assertions, every write of
    a cycle is issued at an offset between 0 and the total size, both
    included, that differs from the starting offset plus the bytes written
    before it by a multiple of the total size. *)
Theorem cycle_offsets_modulo_size (cfg : Config) (starting_offset : Z)
        (fuel : nat) :
  typed cfg -> is_u64 starting_offset ->
  worker_asserts cfg starting_offset = Some true ->
  v (size cfg) + v (block_size cfg) < 2 ^ digits ->
  (Z.to_nat (v (size cfg)) <= fuel)%nat ->
  exists tls,
    write_cycle fuel cfg starting_offset = Some tls /\
    forall pre w post, tls = pre ++ w :: post ->
      0 <= w_offset w <= v (size cfg) /\
      (v (size cfg) | w_offset w - (starting_offset + total (counts pre))).
Proof.
  intros Htyped Hstart Hassert Hfit Hfuel.
  destruct (asserts_block_pos cfg _ Htyped Hassert) as [Hblk Hlt].
  destruct Htyped as (Hsize & _).
  destruct (write_loop_counts cfg Hblk fuel starting_offset (v (size cfg))
              Hsize Hfuel) as (tls & Hrun & _).
  exists tls. split; [exact Hrun|].
  unfold is_u64 in *.
  exact (write_loop_wraps cfg Hblk fuel starting_offset (v (size cfg))
           tls Hfit ltac:(lia) ltac:(lia) Hrun).
Qed.

Lemma cycle_offsets_modulo_size_witness :
  exists tls,
    write_cycle 10 (cfg_of 10 4) 4 = Some tls /\
    forall pre w post, tls = pre ++ w :: post ->
      0 <= w_offset w <= 10 /\
      (10 | w_offset w - (4 + total (counts pre))).
Proof.
  apply (cycle_offsets_modulo_size (cfg_of 10 4) 4 10).
  - unfold typed, is_u64, is_int, digits; simpl; lia.
  - unfold is_u64, digits; lia.
  - reflexivity.
  - unfold digits; simpl; lia.
  - simpl; lia.
Defined.

(** X3: a worker whose assertions pass issues the same writes in every
    repeat: [ceil(size / block_size)] of them per cycle, and
    [size * repeats] bytes over the whole run (none when repeats is not
    positive). *)
Theorem worker_cycles_and_bytes (cfg : Config) (starting_offset : Z)
        (fuel : nat) :
  typed cfg -> is_u64 starting_offset ->
  worker_asserts cfg starting_offset = Some true ->
  (Z.to_nat (v (size cfg)) <= fuel)%nat ->
  exists tls,
    osbench_worker fuel cfg starting_offset =
      Some (Some (repeat tls (Z.to_nat (repeats cfg)))) /\
    Z.of_nat (List.length tls) =
      (v (size cfg) + v (block_size cfg) - 1) / v (block_size cfg) /\
    bytes_written (repeat tls (Z.to_nat (repeats cfg))) =
      v (size cfg) * Z.max 0 (repeats cfg).
Proof.
  intros Htyped Hstart Hassert Hfuel.
  destruct (asserts_block_pos cfg _ Htyped Hassert) as [Hblk _].
  pose proof Htyped as (Hsize & _).
  destruct (write_loop_counts cfg Hblk fuel starting_offset (v (size cfg))
              Hsize Hfuel) as (tls & Hrun & _).
  assert (Hworker : osbench_worker fuel cfg starting_offset =
                    Some (Some (repeat tls (Z.to_nat (repeats cfg))))).
  { unfold osbench_worker. rewrite Hassert.
    rewrite (repeat_cycles_all _ fuel cfg starting_offset tls Hrun).
    reflexivity. }
  exists tls. split; [exact Hworker|]. split.
  - exact (proj2 (write_loop_sum cfg Hblk fuel starting_offset _ tls
                    Hsize Hrun)).
  - exact (worker_ran_bytes fuel cfg starting_offset _ Htyped Hworker).
Qed.

Lemma worker_cycles_and_bytes_witness :
  exists tls,
    osbench_worker 10 (mk_Config (mk_byte_units 10) (mk_byte_units 4) 2 1 false)
                   4 = Some (Some (repeat tls 2)) /\
    Z.of_nat (List.length tls) = (10 + 4 - 1) / 4 /\
    bytes_written (repeat tls 2) = 10 * Z.max 0 2.
Proof.
  apply (worker_cycles_and_bytes
           (mk_Config (mk_byte_units 10) (mk_byte_units 4) 2 1 false) 4 10).
  - unfold typed, is_u64, is_int, digits; simpl; lia.
  - unfold is_u64, digits; lia.
  - reflexivity.
  - simpl; lia.
Defined.

(** ** The workers and the reported total *)

Lemma all_bytes_written_const fuel cfg : forall offs b,
  typed cfg ->
  all_bytes_written
    (map (fun off => match off with
                     | None => None
                     | Some o => osbench_worker fuel cfg o
                     end) offs) = Some b ->
  b = Z.of_nat (List.length offs) * (v (size cfg) * Z.max 0 (repeats cfg)).
Proof.
  induction offs as [|off offs IH]; intros b Htyped H; cbn [map] in H.
  - injection H as <-. reflexivity.
  - cbn [all_bytes_written] in H.
    destruct off as [o|]; [|discriminate H].
    destruct (osbench_worker fuel cfg o) as [[cycles|]|] eqn:Hrun;
      try discriminate H.
    destruct (all_bytes_written _) as [b'|] eqn:Hrest; [|discriminate H].
    injection H as <-.
    rewrite (worker_ran_bytes fuel cfg o cycles Htyped Hrun).
    rewrite (IH b' Htyped eq_refl).
    cbn [List.length]. rewrite Nat2Z.inj_succ. lia.
Qed.

Lemma statistics_total cfg count stats :
  typed cfg -> 0 <= repeats cfg -> 0 <= threads cfg ->
  v (size cfg) * repeats cfg * threads cfg < 2 ^ digits ->
  main_statistics cfg count = Some stats ->
  v (st_total stats) = v (size cfg) * repeats cfg * threads cfg.
Proof.
  intros (Hsize & _ & Hrep & Hthr) Hr Ht Hfit H.
  unfold main_statistics in H.
  destruct (udiv _ (u64 count)); [|discriminate H].
  destruct (udiv _ (v (block_size cfg))); [|discriminate H].
  destruct (udiv _ (u64 count)); [|discriminate H].
  injection H as <-. cbn [st_total v].
  rewrite (u64_int_nonneg (repeats cfg)), (u64_int_nonneg (threads cfg))
    by assumption.
  unfold is_u64 in Hsize.
  destruct (Z.eq_dec (threads cfg) 0) as [Hz|Hnz].
  - rewrite Hz, !Z.mul_0_r. reflexivity.
  - assert (0 <= v (size cfg) * repeats cfg)
      by (apply Z.mul_nonneg_nonneg; lia).
    rewrite (u64_small (v (size cfg) * repeats cfg))
      by (unfold is_u64; nia).
    apply u64_small. unfold is_u64. nia.
Qed.

(** X4: when every worker has run to its end and the product
    [size * repeats * threads] fits in 64 bits, the total of the summary
    line is the number of bytes the workers asked the store to write. *)
Theorem reported_total_is_bytes_written (cfg : Config) (fuel : nat)
        (count b : Z) (stats : statistics) :
  typed cfg -> 0 <= repeats cfg -> 0 <= threads cfg ->
  v (size cfg) * repeats cfg * threads cfg < 2 ^ digits ->
  all_bytes_written (run_workers fuel cfg) = Some b ->
  main_statistics cfg count = Some stats ->
  v (st_total stats) = b.
Proof.
  intros Htyped Hr Ht Hfit Hbytes Hstats.
  rewrite (statistics_total cfg count stats Htyped Hr Ht Hfit Hstats).
  unfold run_workers in Hbytes.
  rewrite (all_bytes_written_const fuel cfg _ b Htyped Hbytes).
  unfold spawn_offsets. rewrite length_map, length_seq.
  rewrite Z2Nat.id, Z.max_r by lia. ring.
Qed.

Lemma reported_total_is_bytes_written_witness :
  v (st_total (mk_statistics (mk_byte_units 524288)
                             (mk_byte_units 524288) 32)) = 524288.
Proof.
  apply (reported_total_is_bytes_written
           (mk_Config (mk_byte_units 65536) (mk_byte_units 16384) 2 4 false)
           4 1000000 524288).
  - unfold typed, is_u64, is_int, digits; simpl; lia.
  - simpl; lia.
  - simpl; lia.
  - unfold digits; simpl; lia.
  - vm_compute. reflexivity.
  - vm_compute. reflexivity.
Defined.

(** ** More on parsing *)

Lemma isspace_code c : isspace c = true -> code c <> 0.
Proof.
  unfold isspace. intros H Hz. rewrite Hz in H. discriminate H.
Qed.

Lemma skip_space_app : forall ws s,
  all_space ws = true -> skip_space (ws ++ s) = skip_space s.
Proof.
  induction ws as [|c ws IH]; intros s H; cbn [append]; [reflexivity|].
  cbn [all_space] in H. apply andb_prop in H. destruct H as [Hc Hws].
  cbn [skip_space]. rewrite Hc. apply IH. exact Hws.
Qed.

Lemma c_str_space : forall ws val,
  all_space ws = true -> c_str (ws ++ val) = (ws ++ c_str val)%string.
Proof.
  induction ws as [|c ws IH]; intros val H; cbn [append]; [reflexivity|].
  cbn [all_space] in H. apply andb_prop in H. destruct H as [Hc Hws].
  cbn [c_str]. apply isspace_code in Hc.
  destruct (Z.eqb_spec (code c) 0); [contradiction|].
  rewrite IH by exact Hws. reflexivity.
Qed.

Lemma skip_space_length : forall s,
  (String.length (skip_space s) <= String.length s)%nat.
Proof.
  induction s as [|c s IH]; cbn [skip_space]; [lia|].
  destruct (isspace c); cbn [String.length]; lia.
Qed.

Lemma scan_digits_length : forall s acc,
  (String.length (snd (scan_digits acc s)) <= String.length s)%nat.
Proof.
  induction s as [|c s IH]; intros acc; cbn [scan_digits]; [cbn; lia|].
  destruct (isdigit c); [|cbn; lia].
  specialize (IH (10 * acc + (code c - 48))). cbn [String.length]. lia.
Qed.

Lemma sign_split s :
  exists neg body,
    match s with
    | String "-" s' => (true, s')
    | String "+" s' => (false, s')
    | _ => (false, s)
    end = (neg, body) /\
    (String.length body <= String.length s)%nat.
Proof.
  destruct s as [|c s]; [exists false, EmptyString; split; [reflexivity|lia]|].
  destruct c as [[] [] [] [] [] [] [] []];
    eexists; eexists; (split; [reflexivity|cbn [String.length]; lia]).
Qed.

(** Either [strtoull] converts nothing and points at the start of its
    input, or it has consumed at least one character. *)
Lemma strtoull_space ws s :
  all_space ws = true ->
  strtoull (ws ++ s) = strtoull s /\
  (String.length (endptr (strtoull s)) < String.length s)%nat
  \/
  strtoull (ws ++ s) = mk_strtoull 0 ENONE (ws ++ s) /\
  strtoull s = mk_strtoull 0 ENONE s.
Proof.
  intros Hws. unfold strtoull. rewrite (skip_space_app ws s Hws).
  pose proof (skip_space_length s) as Hskip.
  destruct (sign_split (skip_space s)) as (neg & body & -> & Hbody).
  destruct body as [|c body]; [right; split; reflexivity|].
  destruct (isdigit c) eqn:Hc; [|right; split; reflexivity].
  left. cbn [scan_digits]. rewrite Hc.
  pose proof (scan_digits_length body (10 * 0 + (code c - 48))) as Hscan.
  destruct (scan_digits (10 * 0 + (code c - 48)) body) as [n rest].
  cbn [snd String.length] in *.
  destruct (n >? ULLONG_MAX); (split; [reflexivity|cbn [endptr]; lia]).
Qed.

Lemma string_length_app_le (a b : string) :
  (String.length b <= String.length (a ++ b))%nat.
Proof. rewrite string_length_app. lia. Qed.

(** X6: white space before the number is ignored: with it the string
    parses exactly as without it. *)
Theorem parse_skips_leading_space (self : byte_units) (ws val : string) :
  all_space ws = true ->
  parse self (ws ++ val) = parse self val.
Proof.
  intros Hws. unfold parse. rewrite (c_str_space ws val Hws).
  pose proof (string_length_app_le ws (c_str val)) as Hle.
  destruct (strtoull_space ws (c_str val) Hws)
    as [[-> Hshort]|[-> ->]].
  - assert (Hne : forall q, (String.length (c_str val) <= String.length q)%nat ->
                            ptr_eq (endptr (strtoull (c_str val))) q = false).
    { intros q Hq. unfold ptr_eq. apply Nat.eqb_neq. lia. }
    rewrite (Hne (ws ++ c_str val)%string Hle), (Hne (c_str val) (le_n _)).
    reflexivity.
  - cbn [ret errno endptr is_ERANGE nonzero andb].
    unfold ptr_eq. rewrite !Nat.eqb_refl. reflexivity.
Qed.

Lemma parse_skips_leading_space_witness :
  parse (mk_byte_units 4096) (" " ++ "64k") = parse (mk_byte_units 4096) "64k".
Proof.
  apply (parse_skips_leading_space (mk_byte_units 4096) " " "64k").
  reflexivity.
Defined.

Lemma strtoull_digits_any ds rest :
  ds <> EmptyString -> all_digits ds = true -> isdigit (deref rest) = false ->
  strtoull (ds ++ rest) =
  if decimal ds >? ULLONG_MAX then mk_strtoull ULLONG_MAX ERANGE rest
  else mk_strtoull (decimal ds) ENONE rest.
Proof.
  intros Hne Hds Hrest.
  destruct ds as [|c ds]; [contradiction|].
  pose proof (scan_digits_all (String c ds) 0 rest Hds Hrest) as Hscan.
  cbn [all_digits] in Hds. apply andb_prop in Hds. destruct Hds as [Hc Hds].
  pose proof (isdigit_code c Hc) as Hcode.
  unfold strtoull. cbn [append skip_space].
  assert (Hsp : isspace c = false).
  { unfold isspace.
    destruct (Z.eqb_spec (code c) 32); [lia|].
    destruct (Z.leb_spec (code c) 13); [lia|]. rewrite andb_false_r.
    reflexivity. }
  rewrite Hsp.
  assert (Hsign : (match String c (ds ++ rest) with
                   | String "-" s' => (true, s')
                   | String "+" s' => (false, s')
                   | _ => (false, String c (ds ++ rest))
                   end) = (false, String c (ds ++ rest))).
  { clear - Hcode.
    destruct c as [[] [] [] [] [] [] [] []]; try reflexivity;
      unfold code in Hcode; simpl in Hcode; lia. }
  rewrite Hsign. rewrite Hc.
  cbn [append] in Hscan. rewrite Hscan. rewrite Z.mul_0_l, Z.add_0_l.
  reflexivity.
Qed.

Lemma strtoull_minus ds rest :
  ds <> EmptyString -> all_digits ds = true -> isdigit (deref rest) = false ->
  strtoull (String "-" (ds ++ rest)) =
  if decimal ds >? ULLONG_MAX then mk_strtoull ULLONG_MAX ERANGE rest
  else mk_strtoull (u64 (- decimal ds)) ENONE rest.
Proof.
  intros Hne Hds Hrest.
  destruct ds as [|c ds]; [contradiction|].
  pose proof (scan_digits_all (String c ds) 0 rest Hds Hrest) as Hscan.
  cbn [all_digits] in Hds. apply andb_prop in Hds. destruct Hds as [Hc Hds].
  unfold strtoull. cbn [skip_space].
  change (isspace "-") with false. cbv iota. cbn [append].
  rewrite Hc. cbn [append] in Hscan. rewrite Hscan.
  rewrite Z.mul_0_l, Z.add_0_l. reflexivity.
Qed.

Lemma interpret_units_none p :
  unit_shift (deref p) = None -> code (deref p) <> 0 ->
  interpret_units p = None.
Proof.
  unfold unit_shift, interpret_units. intros H Hnz.
  destruct (is_char (deref p) "k" "K"); [discriminate H|].
  destruct (is_char (deref p) "m" "M"); [discriminate H|].
  destruct (is_char (deref p) "g" "G"); [discriminate H|].
  destruct (is_char (deref p) "t" "T"); [discriminate H|].
  destruct (Z.eqb_spec (code (deref p)) 0); [contradiction|reflexivity].
Qed.

Lemma interpret_units_trailing c sh x rest :
  unit_shift c = Some sh -> code x <> 0 ->
  interpret_units (String c (String x rest)) = None.
Proof.
  intros H Hx. apply unit_shift_table in H.
  each_unit H; unfold interpret_units, label_t, label_g, label_m, label_k;
    cbn [deref incr is_char Ascii.eqb Bool.eqb orb andb];
    destruct (Z.eqb_spec (code x) 0); try contradiction; reflexivity.
Qed.

(** What [parse] does once [strtoull] has read a number without error and
    a unit follows it. *)
Lemma parse_after_number self val n p sh :
  strtoull (c_str val) = mk_strtoull n ENONE p ->
  ptr_eq p (c_str val) = false ->
  interpret_units p = Some sh -> 10 <= sh <= 40 ->
  parse self val =
  if n <? 2 ^ (digits - sh) then Some (true, mk_byte_units (n * 2 ^ sh))
  else Some (false, self).
Proof.
  intros Hr Hptr Hunits Hsh.
  pose proof (strtoull_ret_range (c_str val)) as Hret.
  unfold parse. rewrite Hr in *. cbn [ret errno endptr] in *.
  cbn [is_ERANGE nonzero andb]. rewrite Hptr, Hunits.
  destruct (shl64_one sh) as [Hbit Hmask]; [unfold digits; lia|].
  rewrite Hbit, Hmask.
  pose proof (high_mask_zero n (digits - sh) Hret ltac:(unfold digits; lia))
    as Hiff.
  destruct (Z.ltb_spec n (2 ^ (digits - sh))) as [Hlt|Hge].
  - rewrite (proj2 Hiff Hlt). cbn [Z.eqb negb].
    assert (Hsplit : 2 ^ digits = 2 ^ (digits - sh) * 2 ^ sh).
    { rewrite <- Z.pow_add_r by (unfold digits; lia). f_equal. lia. }
    assert (Hp : 0 < 2 ^ sh) by (apply Z.pow_pos_nonneg; lia).
    unfold shl64.
    destruct (Z.leb_spec 0 sh); [|lia].
    destruct (Z.ltb_spec sh digits); [|unfold digits in *; lia]. cbn [andb].
    rewrite Z.shiftl_mul_pow2 by lia.
    rewrite u64_small by (unfold is_u64 in *; nia). reflexivity.
  - destruct (Z.eqb_spec (Z.land n (not64 (2 ^ (digits - sh) - 1))) 0)
      as [Hz|_]; [|reflexivity].
    apply Hiff in Hz. lia.
Qed.

Lemma deref_c_str val : deref (c_str val) = deref val.
Proof.
  destruct val as [|c val]; [reflexivity|]. cbn [c_str deref].
  destruct (Z.eqb_spec (code c) 0) as [Hz|_]; [|reflexivity].
  cbn [deref]. rewrite <- (ascii_N_embedding c). unfold code in Hz.
  replace (N_of_ascii c) with 0%N by lia. reflexivity.
Qed.

Lemma c_str_cons c val :
  code c <> 0 -> c_str (String c val) = String c (c_str val).
Proof.
  intros H. cbn [c_str]. destruct (Z.eqb_spec (code c) 0);
    [contradiction|reflexivity].
Qed.

(** A number followed by a character that is neither a unit letter nor the
    end of the string. *)
Lemma number_then_other self ds c rest :
  ds <> EmptyString -> all_digits ds = true ->
  isdigit c = false -> unit_shift c = None -> code c <> 0 ->
  parse self (ds ++ String c rest) = Some (false, self).
Proof.
  intros Hne Hds Hnd Hunit Hnz. unfold parse.
  rewrite c_str_digits by exact Hds. rewrite c_str_cons by exact Hnz.
  rewrite strtoull_digits_any by assumption.
  destruct (decimal ds >? ULLONG_MAX); cbn [ret errno endptr is_ERANGE nonzero].
  - rewrite Z.eqb_refl. reflexivity.
  - cbn [andb].
    rewrite (interpret_units_none (String c (c_str rest)) Hunit Hnz).
    destruct (ptr_eq _ _); reflexivity.
Qed.

(** X7: a number followed by any character other than a digit, K, M, G, T
    (in either case) or the end of the string is refused, whatever comes
    after, and the object is unchanged. *)
Theorem parse_refuses_unknown_suffix (self : byte_units) (ds : string)
        (c : ascii) (rest : string) :
  ds <> EmptyString -> all_digits ds = true ->
  isdigit c = false -> unit_shift c = None -> code c <> 0 ->
  parse self (ds ++ String c rest) = Some (false, self).
Proof. exact (number_then_other self ds c rest). Qed.

Lemma parse_refuses_unknown_suffix_witness :
  parse (mk_byte_units 4096) ("100" ++ String "x" "yz")
  = Some (false, mk_byte_units 4096).
Proof.
  apply (parse_refuses_unknown_suffix (mk_byte_units 4096) "100" "x" "yz").
  - discriminate.
  - reflexivity.
  - reflexivity.
  - reflexivity.
  - discriminate.
Defined.

Lemma string_of_uint_digits d :
  all_digits (NilEmpty.string_of_uint d) = true.
Proof. induction d; cbn [NilEmpty.string_of_uint all_digits]; auto. Qed.

Lemma put_unsigned_digits n :
  put_unsigned n <> EmptyString /\ all_digits (put_unsigned n) = true.
Proof.
  unfold put_unsigned, NilZero.string_of_uint.
  destruct (N.to_uint (Z.to_N n)) eqn:E;
    (split; [discriminate|]); try reflexivity;
    rewrite <- E at 1; cbn [NilEmpty.string_of_uint all_digits];
    try apply string_of_uint_digits.
Qed.

(** X8: no text written by [operator<<] is accepted by [parse]: the space
    after the number makes it return false, so a displayed size cannot be
    read back. *)
Theorem displayed_amount_is_refused (self amount : byte_units) (fuel : nat)
        (text : string) :
  operator_out fuel amount = Some (Some text) ->
  parse self text = Some (false, self).
Proof.
  unfold operator_out, put_amount. intros H.
  destruct (scale_loop fuel (v amount) 0) as [[y n]|]; [|discriminate H].
  destruct (units_at n) as [name|]; [|discriminate H].
  injection H as <-.
  destruct (put_unsigned_digits y) as [Hne Hds].
  change (" " ++ name)%string with (String " " name).
  apply number_then_other; try assumption; try reflexivity.
  discriminate.
Qed.

Lemma displayed_amount_is_refused_witness :
  parse (mk_byte_units 4096) "64 KB" = Some (false, mk_byte_units 4096).
Proof.
  apply (displayed_amount_is_refused (mk_byte_units 4096)
           (mk_byte_units 65536) 5 "64 KB").
  vm_compute. reflexivity.
Defined.

(** X9: anything after the unit letter makes [parse] return false. *)
Theorem parse_refuses_trailing (self : byte_units) (ds : string)
        (c x : ascii) (rest : string) (sh : Z) :
  ds <> EmptyString -> all_digits ds = true ->
  unit_shift c = Some sh -> code x <> 0 ->
  parse self (ds ++ String c (String x rest)) = Some (false, self).
Proof.
  intros Hne Hds Hunit Hx.
  destruct (unit_shift_not_digit c sh Hunit) as (Hnd & Hnz & _).
  unfold parse.
  rewrite c_str_digits by exact Hds.
  rewrite (c_str_cons c _ Hnz), (c_str_cons x _ Hx).
  rewrite strtoull_digits_any by assumption.
  destruct (decimal ds >? ULLONG_MAX); cbn [ret errno endptr is_ERANGE nonzero].
  - rewrite Z.eqb_refl. reflexivity.
  - cbn [andb]. rewrite (interpret_units_trailing c sh x _ Hunit Hx).
    destruct (ptr_eq _ _); reflexivity.
Qed.

Lemma parse_refuses_trailing_witness :
  parse (mk_byte_units 4096) ("4" ++ String "K" (String "B" ""))
  = Some (false, mk_byte_units 4096).
Proof.
  apply (parse_refuses_trailing (mk_byte_units 4096) "4" "K" "B" "" 10).
  - discriminate.
  - reflexivity.
  - reflexivity.
  - discriminate.
Defined.

(** X10: a number above [ULLONG_MAX] is refused whatever follows it. *)
Theorem parse_refuses_out_of_range (self : byte_units) (ds rest : string) :
  all_digits ds = true -> isdigit (deref rest) = false ->
  ULLONG_MAX < decimal ds ->
  parse self (ds ++ rest) = Some (false, self).
Proof.
  intros Hds Hrest Hbig.
  assert (Hne : ds <> EmptyString).
  { intros ->. cbn in Hbig. unfold ULLONG_MAX, digits in Hbig. lia. }
  unfold parse. rewrite c_str_digits by exact Hds.
  rewrite strtoull_digits_any;
    [|exact Hne|exact Hds|rewrite deref_c_str; exact Hrest].
  destruct (Z.gtb_spec (decimal ds) ULLONG_MAX); [|lia].
  cbn [ret errno endptr is_ERANGE nonzero]. rewrite Z.eqb_refl. reflexivity.
Qed.

Lemma parse_refuses_out_of_range_witness :
  parse (mk_byte_units 4096) ("18446744073709551616" ++ "K")
  = Some (false, mk_byte_units 4096).
Proof.
  apply (parse_refuses_out_of_range (mk_byte_units 4096)
           "18446744073709551616" "K").
  - reflexivity.
  - reflexivity.
  - vm_compute. reflexivity.
Defined.

(** X11: a string that does not begin with white space, a sign or a digit,
    the empty string among them, is refused. *)
Theorem parse_refuses_no_number (self : byte_units) (val : string) :
  isspace (deref val) = false -> isdigit (deref val) = false ->
  deref val <> "-"%char -> deref val <> "+"%char ->
  parse self val = Some (false, self).
Proof.
  intros Hsp Hnd Hminus Hplus.
  rewrite <- (deref_c_str val) in *.
  assert (Hr : strtoull (c_str val) = mk_strtoull 0 ENONE (c_str val)).
  { unfold strtoull. destruct (c_str val) as [|c s]; [reflexivity|].
    cbn [deref] in *. cbn [skip_space]. rewrite Hsp.
    assert (Hsign : (match String c s with
                     | String "-" s' => (true, s')
                     | String "+" s' => (false, s')
                     | _ => (false, String c s)
                     end) = (false, String c s)).
    { clear - Hminus Hplus.
      destruct c as [[] [] [] [] [] [] [] []]; try reflexivity;
        first [contradiction Hminus; reflexivity
              |contradiction Hplus; reflexivity]. }
    rewrite Hsign, Hnd. reflexivity. }
  unfold parse. rewrite Hr. cbn [ret errno endptr is_ERANGE nonzero andb].
  unfold ptr_eq. rewrite Nat.eqb_refl. reflexivity.
Qed.

Lemma parse_refuses_no_number_witness :
  parse (mk_byte_units 4096) "" = Some (false, mk_byte_units 4096).
Proof.
  apply (parse_refuses_no_number (mk_byte_units 4096) "").
  - reflexivity.
  - reflexivity.
  - discriminate.
  - discriminate.
Defined.

(** X12: a minus sign is taken by [strtoull], which negates the number in
    the unsigned type; for a number from 1 to [2^64 - 2^54] the result has
    one of its top ten bits set and [parse] returns false with any unit. *)
Theorem parse_refuses_negative (self : byte_units) (ds : string) (c : ascii)
        (sh : Z) :
  all_digits ds = true -> unit_shift c = Some sh ->
  1 <= decimal ds <= 2 ^ digits - 2 ^ 54 ->
  parse self (String "-" (ds ++ String c EmptyString)) = Some (false, self).
Proof.
  intros Hds Hunit Hn.
  assert (Hne : ds <> EmptyString) by (intros ->; cbn in Hn; lia).
  destruct (unit_shift_not_digit c sh Hunit) as (Hnd & Hnz & Hsh).
  assert (Hc : c_str (String "-" (ds ++ String c EmptyString)) =
               String "-" (ds ++ String c EmptyString)).
  { rewrite c_str_cons by discriminate.
    rewrite c_str_digits by exact Hds. rewrite (c_str_cons c _ Hnz).
    reflexivity. }
  assert (Hmax : decimal ds <= ULLONG_MAX)
    by (unfold ULLONG_MAX, digits in *; lia).
  rewrite (parse_after_number self _ (u64 (- decimal ds))
             (String c EmptyString) sh).
  - assert (Hret : u64 (- decimal ds) = 2 ^ digits - decimal ds).
    { unfold u64. symmetry.
      apply Z.mod_unique with (q := -1); [left|]; unfold digits in *; lia. }
    assert (Hpow : 2 ^ (digits - sh) <= 2 ^ 54)
      by (apply Z.pow_le_mono_r; unfold digits; lia).
    destruct (Z.ltb_spec (u64 (- decimal ds)) (2 ^ (digits - sh)));
      [lia|reflexivity].
  - rewrite Hc, strtoull_minus by assumption.
    destruct (Z.gtb_spec (decimal ds) ULLONG_MAX); [lia|reflexivity].
  - rewrite Hc. unfold ptr_eq. cbn [String.length].
    rewrite string_length_app. apply Nat.eqb_neq. cbn [String.length]. lia.
  - exact (interpret_units_alone c sh Hunit).
  - lia.
Qed.

Lemma parse_refuses_negative_witness :
  parse (mk_byte_units 4096) (String "-" ("1" ++ String "K" EmptyString))
  = Some (false, mk_byte_units 4096).
Proof.
  apply (parse_refuses_negative (mk_byte_units 4096) "1" "K" 10).
  - reflexivity.
  - reflexivity.
  - unfold digits; simpl; lia.
Defined.

Lemma strtoull_erange s :
  errno (strtoull s) = ERANGE -> ret (strtoull s) = ULLONG_MAX.
Proof.
  unfold strtoull.
  destruct (match skip_space s with
            | String "-" s' => (true, s')
            | String "+" s' => (false, s')
            | _ => (false, skip_space s)
            end) as [neg body].
  destruct body as [|c body]; [discriminate|].
  destruct (isdigit c); [|discriminate].
  destruct (scan_digits 0 (String c body)) as [n rest].
  destruct (n >? ULLONG_MAX); [reflexivity|discriminate].
Qed.

(** The [switch] on a unit letter: the shift of the letter when the string
    ends after it, [return false] otherwise. *)
Lemma interpret_units_unit p sh :
  unit_shift (deref p) = Some sh ->
  interpret_units p =
  if code (deref (incr p)) =? 0 then Some sh else None.
Proof.
  intros H. destruct p as [|c p]; cbn [deref incr] in *.
  - vm_compute in H. discriminate H.
  - apply unit_shift_table in H. each_unit H; reflexivity.
Qed.

(** X5: for a string in which a unit letter follows the number that
    [strtoull] read, [parse] has a defined result.  It returns true exactly
    when the number was read without error, at least one character was
    converted, the string ends right after the letter and the number is
    below [2^(64 - shift)]; the object then holds the number times
    [2^shift], a value below [2^64].  Otherwise it returns false and the
    object is unchanged. *)
Theorem parse_with_unit_letter (self : byte_units) (val : string)
        (r : strtoull_result) (sh : Z) :
  strtoull (c_str val) = r ->
  unit_shift (deref (endptr r)) = Some sh ->
  exists ok x,
    parse self val = Some (ok, x) /\
    (ok = true <->
     errno r = ENONE /\ ptr_eq (endptr r) (c_str val) = false /\
     code (deref (incr (endptr r))) = 0 /\ ret r < 2 ^ (digits - sh)) /\
    (if ok then v x = ret r * 2 ^ sh /\ v x < 2 ^ digits else x = self).
Proof.
  intros Hr Hunit.
  pose proof (strtoull_ret_range (c_str val)) as Hret.
  pose proof (strtoull_erange (c_str val)) as Herange.
  destruct (unit_shift_not_digit _ sh Hunit) as (_ & _ & Hsh).
  pose proof (interpret_units_unit (endptr r) sh Hunit) as Hswitch.
  rewrite Hr in Hret, Herange.
  destruct r as [n e p]. cbn [ret errno endptr] in *.
  assert (Hrefuse : forall P : Prop, ~ P ->
            parse self val = Some (false, self) ->
            exists ok x,
              parse self val = Some (ok, x) /\ (ok = true <-> P) /\
              (if ok then v x = n * 2 ^ sh /\ v x < 2 ^ digits
               else x = self)).
  { intros P HP Hparse. exists false, self.
    split; [exact Hparse|]. split; [|reflexivity].
    split; [discriminate|]. intros HP'. contradiction. }
  destruct e.
  - destruct (ptr_eq p (c_str val)) eqn:Hptr.
    + apply Hrefuse; [intros (_ & E & _); discriminate E|].
      unfold parse. rewrite Hr. cbn [ret errno endptr is_ERANGE nonzero andb].
      rewrite Hptr. reflexivity.
    + destruct (Z.eqb_spec (code (deref (incr p))) 0) as [Hend|Hend].
      * pose proof (parse_after_number self val n p sh Hr Hptr Hswitch Hsh)
          as Hparse.
        destruct (Z.ltb_spec n (2 ^ (digits - sh))) as [Hlt|Hge].
        -- exists true, (mk_byte_units (n * 2 ^ sh)).
           split; [exact Hparse|]. split.
           ++ split; [intros _; repeat split; assumption|reflexivity].
           ++ cbn [v]. split; [reflexivity|].
              assert (Hsplit : 2 ^ digits = 2 ^ (digits - sh) * 2 ^ sh).
              { rewrite <- Z.pow_add_r by (unfold digits; lia).
                f_equal. lia. }
              assert (Hp : 0 < 2 ^ sh) by (apply Z.pow_pos_nonneg; lia).
              unfold is_u64 in Hret. nia.
        -- apply Hrefuse; [intros (_ & _ & _ & E); lia|exact Hparse].
      * apply Hrefuse; [intros (_ & _ & E & _); contradiction|].
        unfold parse. rewrite Hr.
        cbn [ret errno endptr is_ERANGE nonzero andb].
        rewrite Hptr, Hswitch. reflexivity.
  - apply Hrefuse; [intros (E & _); discriminate E|].
    unfold parse. rewrite Hr. cbn [ret errno endptr is_ERANGE].
    rewrite (Herange eq_refl), Z.eqb_refl. reflexivity.
Qed.

Lemma parse_with_unit_letter_witness :
  exists ok x,
    parse (mk_byte_units 4096) "3m" = Some (ok, x) /\
    (ok = true <->
     errno (mk_strtoull 3 ENONE "m") = ENONE /\
     ptr_eq (endptr (mk_strtoull 3 ENONE "m")) (c_str "3m") = false /\
     code (deref (incr (endptr (mk_strtoull 3 ENONE "m")))) = 0 /\
     ret (mk_strtoull 3 ENONE "m") < 2 ^ (digits - 20)) /\
    (if ok then v x = ret (mk_strtoull 3 ENONE "m") * 2 ^ 20 /\
                v x < 2 ^ digits
     else x = mk_byte_units 4096).
Proof.
  apply (parse_with_unit_letter (mk_byte_units 4096) "3m"
           (mk_strtoull 3 ENONE "m") 20).
  - reflexivity.
  - reflexivity.
Defined.

(** ** More on the display *)

Lemma scale_loop_total : forall fuel x u,
  0 <= u <= 5 -> 0 <= x -> (Z.to_nat (5 - u) <= fuel)%nat ->
  exists y n,
    scale_loop fuel x u = Some (y, n) /\
    u <= n <= 5 /\
    y = x / 1024 ^ (n - u) /\
    (x < 1048576 -> y * 1024 ^ (n - u) = x) /\
    (x < 1024 -> n = u).
Proof.
  assert (Hstop : forall x u, 0 <= u <= 5 ->
            u <= u <= 5 /\ x = x / 1024 ^ (u - u) /\
            (x < 1048576 -> x * 1024 ^ (u - u) = x) /\ (x < 1024 -> u = u)).
  { intros x u Hu. rewrite Z.sub_diag. change (1024 ^ 0) with 1.
    rewrite Z.div_1_r, Z.mul_1_r. repeat split; lia. }
  induction fuel as [|fuel IH]; intros x u Hu Hx Hfuel.
  - assert (u = 5) as -> by lia. exists x, 5. cbn [scale_loop].
    change max_units with 5. rewrite Z.ltb_irrefl, andb_false_r.
    split; [reflexivity|]. apply Hstop. lia.
  - cbn [scale_loop]. change max_units with 5.
    destruct ((x >=? 1024) && (u <? 5)) eqn:Hguard.
    + apply andb_prop in Hguard. destruct Hguard as [Hge Hlt].
      apply Z.geb_le in Hge. apply Z.ltb_lt in Hlt.
      destruct ((x <? 1048576) && negb (x mod 1024 =? 0)) eqn:Hbreak.
      * exists x, u. split; [reflexivity|]. apply Hstop. lia.
      * rewrite Z.shiftr_div_pow2 by lia. change (2 ^ 10) with 1024.
        destruct (IH (x / 1024) (u + 1)) as (y & n & Hrun & Hn & Hy & Hexact & _);
          [lia|apply Z.div_pos; lia|lia|].
        assert (Hpow : 1024 ^ (n - u) = 1024 * 1024 ^ (n - (u + 1))).
        { replace (n - u) with (1 + (n - (u + 1))) by lia.
          rewrite Z.pow_add_r by lia. reflexivity. }
        assert (Hpos : 0 < 1024 ^ (n - (u + 1)))
          by (apply Z.pow_pos_nonneg; lia).
        exists y, n. split; [exact Hrun|]. split; [lia|]. split; [|split].
        -- rewrite Hy, Hpow. apply Z.div_div; lia.
        -- intros Hsmall.
           destruct (Z.ltb_spec x 1048576); [|lia].
           destruct (Z.eqb_spec (x mod 1024) 0) as [Hmod|];
             [|discriminate Hbreak].
           pose proof (Z.div_mod x 1024 ltac:(lia)) as Hdm.
           rewrite Hpow.
           replace (y * (1024 * 1024 ^ (n - (u + 1))))
             with (1024 * (y * 1024 ^ (n - (u + 1)))) by ring.
           rewrite Hexact by lia. lia.
        -- lia.
    + exists x, u. split; [reflexivity|].
      destruct (Hstop x u Hu) as (H1 & H2 & H3 & H4).
      repeat split; try assumption; lia.
Qed.

(** X13: the display loop ends for every value within five iterations,
    with a unit index from 0 to 5 and the value divided by 1024 that many
    times.  Below one mebibyte nothing is lost: the number displayed times
    its unit is the value itself; below 1024 the value is displayed as it
    is, in bytes. *)
Theorem display_keeps_significant_bytes (amount : byte_units) (fuel : nat) :
  0 <= v amount -> (5 <= fuel)%nat ->
  exists y n,
    scale_loop fuel (v amount) 0 = Some (y, n) /\
    operator_out fuel amount = Some (put_amount y n) /\
    0 <= n <= 5 /\
    y = v amount / 1024 ^ n /\
    (v amount < 1048576 -> y * 1024 ^ n = v amount) /\
    (v amount < 1024 -> n = 0).
Proof.
  intros Hv Hfuel.
  destruct (scale_loop_total fuel (v amount) 0) as (y & n & Hrun & Hn & Hy & He & Hs);
    [lia|exact Hv|simpl; lia|].
  rewrite Z.sub_0_r in *.
  exists y, n. split; [exact Hrun|]. split.
  - unfold operator_out. rewrite Hrun. reflexivity.
  - repeat split; try assumption; lia.
Qed.

Lemma display_keeps_significant_bytes_witness :
  exists y n,
    scale_loop 5 (v (mk_byte_units 1047552)) 0 = Some (y, n) /\
    operator_out 5 (mk_byte_units 1047552) = Some (put_amount y n) /\
    0 <= n <= 5 /\
    y = v (mk_byte_units 1047552) / 1024 ^ n /\
    (v (mk_byte_units 1047552) < 1048576 ->
     y * 1024 ^ n = v (mk_byte_units 1047552)) /\
    (v (mk_byte_units 1047552) < 1024 -> n = 0).
Proof.
  apply (display_keeps_significant_bytes (mk_byte_units 1047552) 5).
  - simpl; lia.
  - lia.
Defined.

(** ** More on the statistics *)

(** X14: whenever the statistics are defined, the reported iops is the
    reported rate divided by the block size, also when the 64-bit products
    have wrapped. *)
Theorem iops_is_rate_per_block (cfg : Config) (count : Z)
        (stats : statistics) :
  typed cfg ->
  main_statistics cfg count = Some stats ->
  st_iops stats = v (st_rate stats) / v (block_size cfg).
Proof.
  intros (_ & Hblock & _) H. unfold main_statistics, udiv in H.
  pose proof (u64_range count) as Hc. unfold is_u64 in Hc, Hblock.
  destruct (Z.eqb_spec (u64 count) 0); [discriminate H|].
  destruct (Z.eqb_spec (v (block_size cfg)) 0); [discriminate H|].
  injection H as <-. cbn [st_iops st_rate v].
  rewrite !Z.div_div by lia. f_equal. lia.
Qed.

Lemma iops_is_rate_per_block_witness :
  st_iops (mk_statistics (mk_byte_units 3072) (mk_byte_units 3072000) 1500)
  = v (st_rate (mk_statistics (mk_byte_units 3072) (mk_byte_units 3072000)
                              1500))
    / v (block_size
           (mk_Config (mk_byte_units 3072) (mk_byte_units 2048) 1 1 false)).
Proof.
  apply (iops_is_rate_per_block
           (mk_Config (mk_byte_units 3072) (mk_byte_units 2048) 1 1 false)
           1000).
  - unfold typed, is_u64, is_int, digits; simpl; lia.
  - vm_compute. reflexivity.
Defined.

(** ** More on the partitioning *)

Lemma div_step x s n :
  0 < n -> 0 <= x -> 0 <= s ->
  s / n <= (x + s) / n - x / n <= s / n + 1.
Proof.
  intros Hn Hx Hs.
  pose proof (Z.div_mod x n ltac:(lia)) as Ex.
  pose proof (Z.div_mod s n ltac:(lia)) as Es.
  pose proof (Z.div_mod (x + s) n ltac:(lia)) as Exs.
  pose proof (Z.mod_pos_bound x n Hn).
  pose proof (Z.mod_pos_bound s n Hn).
  pose proof (Z.mod_pos_bound (x + s) n Hn).
  nia.
Qed.

(** X15: when the products do not wrap, the first worker starts at offset
    0, and each worker's share, from its starting offset to the next
    worker's or, for the last worker, to the total size, is
    [size / threads] bytes or one byte more. *)
Theorem shares_differ_by_at_most_one (cfg : Config) (i : Z) :
  typed cfg -> 1 <= threads cfg -> 0 <= i < threads cfg ->
  (threads cfg - 1) * v (size cfg) < 2 ^ digits ->
  exists a b,
    starting_offset cfg 0 = Some 0 /\
    starting_offset cfg i = Some a /\
    (if i + 1 <? threads cfg then starting_offset cfg (i + 1)
     else Some (v (size cfg))) = Some b /\
    v (size cfg) / threads cfg <= b - a <= v (size cfg) / threads cfg + 1.
Proof.
  intros Htyped Hn Hi Hfit.
  pose proof Htyped as (Hsize & _). unfold is_u64 in Hsize.
  assert (Hoff : forall j, 0 <= j < threads cfg ->
            starting_offset cfg j = Some (j * v (size cfg) / threads cfg)).
  { intros j Hj. rewrite (starting_offset_value cfg Htyped Hn j Hj).
    rewrite (starting_offset_exact cfg Htyped Hn j Hj Hfit). reflexivity. }
  exists (i * v (size cfg) / threads cfg).
  pose proof (div_step (i * v (size cfg)) (v (size cfg)) (threads cfg)
                ltac:(lia) ltac:(nia) ltac:(lia)) as Hstep.
  destruct (Z.ltb_spec (i + 1) (threads cfg)) as [Hnext|Hlast].
  - exists ((i + 1) * v (size cfg) / threads cfg).
    split; [rewrite Hoff by lia; reflexivity|].
    split; [apply Hoff; lia|]. split; [apply Hoff; lia|].
    replace ((i + 1) * v (size cfg)) with (i * v (size cfg) + v (size cfg))
      by ring.
    exact Hstep.
  - exists (v (size cfg)).
    split; [rewrite Hoff by lia; reflexivity|].
    split; [apply Hoff; lia|]. split; [reflexivity|].
    assert (i = threads cfg - 1) as -> by lia.
    replace ((threads cfg - 1) * v (size cfg) + v (size cfg))
      with (v (size cfg) * threads cfg) in Hstep by ring.
    rewrite Z.div_mul in Hstep by lia. exact Hstep.
Qed.

Lemma shares_differ_by_at_most_one_witness :
  exists a b,
    starting_offset
      (mk_Config (mk_byte_units 10240) (mk_byte_units 1024) 1 3 false) 0
      = Some 0 /\
    starting_offset
      (mk_Config (mk_byte_units 10240) (mk_byte_units 1024) 1 3 false) 1
      = Some a /\
    (if 1 + 1 <? 3
     then starting_offset
            (mk_Config (mk_byte_units 10240) (mk_byte_units 1024) 1 3 false)
            (1 + 1)
     else Some 10240) = Some b /\
    10240 / 3 <= b - a <= 10240 / 3 + 1.
Proof.
  apply (shares_differ_by_at_most_one
           (mk_Config (mk_byte_units 10240) (mk_byte_units 1024) 1 3 false) 1).
  - unfold typed, is_u64, is_int, digits; simpl; lia.
  - simpl; lia.
  - simpl; lia.
  - unfold digits; simpl; lia.
Defined.

(** ** More on the completion handshake *)

Lemma wait_over_step s l s' :
  NotifyCond.invariant s ->
  (wait_over s -> NotifyCond.fpc s = NotifyCond.F_returned) ->
  NotifyCond.step s l s' ->
  wait_over s' -> NotifyCond.fpc s' = NotifyCond.F_returned.
Proof.
  unfold wait_over, NotifyCond.invariant.
  intros Hinv Hover Hstep.
  destruct Hstep; cbn in *;
    repeat match goal with
           | f : NotifyCond.finish_pc |- _ => destruct f
           | w : NotifyCond.wait_pc |- _ => destruct w
           end;
    cbn in *; intuition (try discriminate; try congruence).
Qed.

Lemma wait_over_steps s s' :
  NotifyCond.steps s s' ->
  NotifyCond.invariant s ->
  (wait_over s -> NotifyCond.fpc s = NotifyCond.F_returned) ->
  wait_over s' -> NotifyCond.fpc s' = NotifyCond.F_returned.
Proof.
  induction 1 as [|s l s1 s2 Hstep _ IH]; intros Hinv Hover; [exact Hover|].
  apply IH.
  - exact (NotifyCondFacts.invariant_step s l s1 Hinv Hstep).
  - exact (wait_over_step s l s1 Hinv Hover Hstep).
Qed.

(** X16: in every interleaving, once the worker is past its wait, [done] is
    set and [finish] has released the mutex and returned: nothing touches
    the mutex, the condition variable or the flag after the worker has left
    the scope that holds them. *)
Theorem finish_returns_before_wait_ends (s : NotifyCond.state) :
  NotifyCond.reachable s -> wait_over s ->
  NotifyCond.fpc s = NotifyCond.F_returned /\ NotifyCond.done s = true.
Proof.
  intros Hreach Hover. split.
  - apply (wait_over_steps NotifyCond.init s Hreach
             NotifyCondFacts.invariant_init); [|exact Hover].
    intros [E|E]; discriminate E.
  - destruct (NotifyCondFacts.invariant_reachable s Hreach)
      as (_ & _ & _ & Hdone & _).
    apply Hdone. exact Hover.
Qed.

Lemma finish_returns_before_wait_ends_witness :
  NotifyCond.fpc
    (NotifyCond.mk_state (Some NotifyCond.Worker) true NotifyCond.F_returned
                         NotifyCond.W_passed) = NotifyCond.F_returned /\
  NotifyCond.done
    (NotifyCond.mk_state (Some NotifyCond.Worker) true NotifyCond.F_returned
                         NotifyCond.W_passed) = true.
Proof.
  apply (finish_returns_before_wait_ends
           (NotifyCond.mk_state (Some NotifyCond.Worker) true
                                NotifyCond.F_returned NotifyCond.W_passed)).
  - unfold NotifyCond.reachable, NotifyCond.init.
    eapply NotifyCond.steps_more; [apply NotifyCond.finish_lock|].
    eapply NotifyCond.steps_more; [apply NotifyCond.finish_set|].
    eapply NotifyCond.steps_more; [apply NotifyCond.finish_notify|].
    eapply NotifyCond.steps_more; [apply NotifyCond.finish_unlock|].
    eapply NotifyCond.steps_more; [apply NotifyCond.wait_lock|].
    eapply NotifyCond.steps_more; [apply NotifyCond.wait_pred_true|].
    apply NotifyCond.steps_refl.
  - left. reflexivity.
Defined.
